(** * The MovieLens example notebook of deepr (docs/movielens/movielens.ipynb)

    The notebook is a linear script: it wires paths and parameters into the
    job objects of the deepr framework, runs them, and then inspects the
    trained embeddings with three small helpers ([knn_query],
    [display_results_df], [display_movie]) over two dictionaries ([mapp],
    [inversed_map]) read from the vocabulary mapping file.

    The development embeds the notebook cell by cell.  Calls into the
    libraries the notebook imports (deepr, faiss, numpy, pandas) are
    parameters of the model; the Python built-ins the notebook applies itself
    ([str.split], [int], [dict], [enumerate], [zip]) are defined here. *)

From Stdlib Require Import ZArith String Ascii List Bool Lia.
Import ListNotations.

Local Open Scope Z_scope.
Set Warnings "-register-all".

(** ** Exceptions and results *)

Module Py.

(** What an external library reports when one of its calls fails. *)
Definition lib_error := string.

(** The exceptions that can leave a piece of notebook code.  [ValueError] and
    [KeyError] are raised by the built-ins [int] and [dict.__getitem__] that
    the notebook applies in its own expressions, [IndexError] by numpy's
    subscript [a[0]], and [External] wraps whatever a library call raised. *)
Inductive exn : Type :=
| ValueError
| KeyError
| IndexError
| External (e : lib_error).

Inductive result (A : Type) : Type :=
| Ok (a : A)
| Raise (e : exn).

Arguments Ok {A} a.
Arguments Raise {A} e.

Definition bind {A B : Type} (r : result A) (k : A -> result B) : result B :=
  match r with
  | Ok a => k a
  | Raise e => Raise e
  end.

Definition lift {A : Type} (r : lib_error + A) : result A :=
  match r with
  | inl e => Raise (External e)
  | inr a => Ok a
  end.

(** A list comprehension [[f x for x in l]]: elements are computed left to
    right and the first exception aborts the comprehension. *)
Fixpoint comprehension {A B : Type} (f : A -> result B) (l : list A)
  : result (list B) :=
  match l with
  | [] => Ok []
  | x :: rest =>
      bind (f x) (fun y => bind (comprehension f rest) (fun ys => Ok (y :: ys)))
  end.


(** ** [str.split] with an explicit one-character separator *)

Fixpoint split (sep : ascii) (s : string) : list string :=
  match s with
  | EmptyString => [EmptyString]
  | String c rest =>
      if Ascii.eqb c sep then EmptyString :: split sep rest
      else match split sep rest with
           | tok :: toks => String c tok :: toks
           | [] => [String c EmptyString]
           end
  end.

Definition newline : ascii := ascii_of_nat 10.

(** ** [int] on a string

    Characters are code points below 256.  [int] strips white space on both
    sides, reads an optional sign and then decimal digits, where single
    underscores may separate digits.  Of the code points below 256 the ones
    [int] strips are 9 to 13, 32, 133 and 160. *)

Definition is_space (c : ascii) : bool :=
  let n := nat_of_ascii c in
  ((9 <=? n) && (n <=? 13) || (n =? 32) || (n =? 133) || (n =? 160))%nat.

Definition digit (c : ascii) : option Z :=
  let n := nat_of_ascii c in
  if ((48 <=? n) && (n <=? 57))%nat then Some (Z.of_nat n - 48) else None.

Fixpoint lstrip (s : list ascii) : list ascii :=
  match s with
  | c :: rest => if is_space c then lstrip rest else s
  | [] => []
  end.

Definition strip (s : list ascii) : list ascii :=
  rev (lstrip (rev (lstrip s))).

Definition underscore : ascii := ascii_of_nat 95.
Definition plus_sign : ascii := ascii_of_nat 43.
Definition minus_sign : ascii := ascii_of_nat 45.

(** [digits acc after_digit s]: the value of the digit string [s] continuing
    the value [acc]; [after_digit] tells whether the previous character was a
    digit, which is what an underscore and the end of the literal require. *)
Fixpoint digits (acc : Z) (after_digit : bool) (s : list ascii) : option Z :=
  match s with
  | [] => if after_digit then Some acc else None
  | c :: rest =>
      if Ascii.eqb c underscore then
        if after_digit then digits acc false rest else None
      else
        match digit c with
        | Some d => digits (10 * acc + d) true rest
        | None => None
        end
  end.

Definition int (s : string) : result Z :=
  let body := strip (list_ascii_of_string s) in
  let parsed :=
    match body with
    | c :: rest =>
        if Ascii.eqb c plus_sign then digits 0 false rest
        else if Ascii.eqb c minus_sign then option_map Z.opp (digits 0 false rest)
        else digits 0 false body
    | [] => None
    end in
  match parsed with
  | Some n => Ok n
  | None => Raise ValueError
  end.

(** ** [dict]

    A dictionary keeps its items in insertion order; assigning to a key that
    is present replaces the value where the key stands.  Keys are integers
    in every dictionary of the notebook. *)

Definition dict (V : Type) : Type := list (Z * V).

Fixpoint get {V : Type} (k : Z) (d : dict V) : option V :=
  match d with
  | [] => None
  | (k', v) :: rest => if Z.eqb k k' then Some v else get k rest
  end.

Fixpoint setitem {V : Type} (k : Z) (v : V) (d : dict V) : dict V :=
  match d with
  | [] => [(k, v)]
  | (k', v') :: rest =>
      if Z.eqb k k' then (k, v) :: rest else (k', v') :: setitem k v rest
  end.

(** [d[k]] *)
Definition getitem {V : Type} (d : dict V) (k : Z) : result V :=
  match get k d with
  | Some v => Ok v
  | None => Raise KeyError
  end.

Definition keys {V : Type} (d : dict V) : list Z := map fst d.
Definition items {V : Type} (d : dict V) : list (Z * V) := d.

(** [enumerate(l)] *)
Fixpoint enumerate_from {A : Type} (i : Z) (l : list A) : list (Z * A) :=
  match l with
  | [] => []
  | x :: rest => (i, x) :: enumerate_from (i + 1) rest
  end.

Definition enumerate {A : Type} (l : list A) : list (Z * A) :=
  enumerate_from 0 l.

(** [zip(a, b)] stops with the shorter argument. *)
Definition zip {A B : Type} (a : list A) (b : list B) : list (A * B) :=
  combine a b.

End Py.

Import Py.

Declare Scope result_scope.
Delimit Scope result_scope with result.
Notation "x <- c1 ;; c2" := (Py.bind c1 (fun x => c2))
  (at level 61, c1 at next level, right associativity) : result_scope.
Notation "' p <- c1 ;; c2" := (Py.bind c1 (fun p => c2))
  (at level 61, p pattern, c1 at next level, right associativity) : result_scope.

(** ** The visualisation cell *)

Module Visualize.

Local Open Scope result_scope.

(** [mapp = {int(movie_id): indice for indice, movie_id in enumerate(...)}]:
    the comprehension evaluates the key [int(movie_id)] of each item in turn
    and assigns it; the first token [int] rejects ends it with [ValueError]. *)
Fixpoint mapp_comprehension (d : dict Z) (l : list (Z * string))
  : result (dict Z) :=
  match l with
  | [] => Ok d
  | (indice, movie_id) :: rest =>
      key <- int movie_id ;;
      mapp_comprehension (setitem key indice d) rest
  end.

(** [content] is what [open("average/data/mapping.txt", "r").read()] returned. *)
Definition mapp (content : string) : result (dict Z) :=
  mapp_comprehension [] (enumerate (split newline content)).

(** [inversed_map = {indice: movie_id for movie_id, indice in mapp.items()}] *)
Definition inversed_map (mapp : dict Z) : dict Z :=
  fold_left (fun d '(movie_id, indice) => setitem indice movie_id d)
            (items mapp) [].

(** numpy's [a[0]] on an array given by its rows (or its entries). *)
Definition item0 {A : Type} (a : list A) : result A :=
  match a with
  | x :: _ => Ok x
  | [] => Raise IndexError
  end.

(** [np.expand_dims(query, 0)]: a batch holding the one query. *)
Definition expand_dims0 {Query : Type} (query : Query) : list Query := [query].

(** The index object handed to [knn_query]: all the notebook asks of it is a
    [search] method taking a batch of queries and a number of neighbours and
    returning a matrix of distances and a matrix of labels, or failing. *)
Record Index (Query Dist : Type) : Type := {
  search : list Query -> Z -> lib_error + (list (list Dist) * list (list Z))
}.

Arguments search {Query Dist} _ _ _.

Definition knn_query {Query Dist : Type} (inversed_map : dict Z)
  (index : Index Query Dist) (query : Query) (ksearch : Z)
  : result (list (Z * Dist)) :=
  DI <- lift (search index (expand_dims0 query) ksearch) ;;
  let D := fst DI in
  let I := snd DI in
  distances <- item0 D ;;
  product_indices <- item0 I ;;
  product_ids <- comprehension (fun i => getitem inversed_map i) product_indices ;;
  Ok (zip product_ids distances).

(** A row of the movies table read from movies.csv. *)
Record movie : Type := {
  movieId : Z;
  title : string;
  genres : string
}.

(** [movies[movies.movieId == movie_id][column].to_numpy()] *)
Definition column_where (movies : list movie) (movie_id : Z)
  (column : movie -> string) : list string :=
  map column (filter (fun m => movieId m =? movie_id) movies).

Inductive cell (Dist : Type) : Type :=
| Text (s : string)
| Number (d : Dist).

Arguments Text {Dist} s.
Arguments Number {Dist} d.

(** [pd.DataFrame(data, columns=...)]; at both places the notebook builds
    one, every row of [data] has as many cells as there are column names. *)
Record DataFrame (Dist : Type) : Type := {
  columns : list string;
  values : list (list (cell Dist))
}.

Arguments columns {Dist} _.
Arguments values {Dist} _.

Definition pd_DataFrame {Dist : Type} (data : list (list (cell Dist)))
  (names : list string) : DataFrame Dist :=
  {| columns := names; values := data |}.

(** [display(df)] appends the frame to what the cell has put out so far. *)
Definition display {Dist : Type} (df : DataFrame Dist)
  (out : list (DataFrame Dist)) : list (DataFrame Dist) :=
  out ++ [df].

(** The row the comprehension of [display_results_df] computes for one
    [(movie_id, distance)] pair. *)
Definition results_row {Dist : Type} (movies : list movie)
  (r : Z * Dist) : result (list (cell Dist)) :=
  let '(movie_id, distance) := r in
  g <- item0 (column_where movies movie_id genres) ;;
  t <- item0 (column_where movies movie_id title) ;;
  Ok [Text g; Text t; Number distance].

Definition display_results_df {Dist : Type} (movies : list movie)
  (results : list (Z * Dist)) (out : list (DataFrame Dist))
  : result (list (DataFrame Dist)) :=
  data <- comprehension (results_row movies) results ;;
  let df := pd_DataFrame data ["Genre"; "Title"; "Distance"]%string in
  Ok (display df out).

Definition display_movie {Dist : Type} (movies : list movie)
  (movie_id : Z) (out : list (DataFrame Dist))
  : result (list (DataFrame Dist)) :=
  g <- item0 (column_where movies movie_id genres) ;;
  t <- item0 (column_where movies movie_id title) ;;
  let df := pd_DataFrame [[Text g; Text t]] ["Genre"; "Title"]%string in
  Ok (display df out).

End Visualize.

(** ** The pipeline cells *)

Module Notebook.

Local Open Scope string_scope.

(** Modelled from the spec: the constructors of the framework's classes
    (BuildRecords, Trainer, Predict, Evaluate and the readers, layers,
    exporters, hooks and metrics handed to them) live in the deepr package;
    the spec describes each job as a thin parameter object handed to the
    framework's execution engine, so a constructor call stores what it is
    given and does nothing else.

    These are the values the notebook passes around: a call
    [C(a, ..., k=v, ...)] of a class of the framework is kept as the class
    with the arguments it was given. *)
Inductive value : Type :=
| VInt (n : Z)
| VFloat (literal : string)
| VStr (s : string)
| VBool (b : bool)
| VNone
| VName (qualified : string)
| VList (l : list value)
| VTuple (l : list value)
| VDict (entries : list (string * value))
| VObj (class : string) (args : list value) (kwargs : list (string * value)).

Fixpoint lookup (name : string) (kw : list (string * value)) : option value :=
  match kw with
  | [] => None
  | (n, v) :: rest => if String.eqb name n then Some v else lookup name rest
  end.

(** The keyword argument [name] an object was built with. *)
Definition kwarg (name : string) (v : value) : option value :=
  match v with
  | VObj _ _ kw => lookup name kw
  | _ => None
  end.

Definition class_of (v : value) : string :=
  match v with
  | VObj c _ _ => c
  | _ => ""
  end.

(** What the notebook needs of its environment: the working directory, and
    the three framework calls that touch the outside world.  A call that
    changes the world returns the world it leaves and the exception it
    raised, if any. *)
Class Framework : Type := {
  World : Type;
  getcwd : string;
  mkdir : string -> World -> World * option lib_error;
  vocab_size : string -> World -> lib_error + Z;
  run : value -> World -> World * option lib_error
}.

(** What can be observed of an execution, in the order it happens. *)
Inductive event : Type :=
| Mkdir (path : string)
| VocabSize (path : string)
| Started (job : value)
| Finished (job : value).

(** Cells run in a state made of the world and the events so far, and end
    normally or with an exception. *)
Definition M `{F : Framework} (A : Type) : Type :=
  World * list event -> result A * (World * list event).

Definition ret `{F : Framework} {A : Type} (a : A) : M A :=
  fun s => (Ok a, s).

Definition mbind `{F : Framework} {A B : Type} (c : M A) (k : A -> M B) : M B :=
  fun s =>
    match c s with
    | (Ok a, s') => k a s'
    | (Raise e, s') => (Raise e, s')
    end.

Definition emit `{F : Framework} (ev : event) : M unit :=
  fun s => (Ok tt, (fst s, (snd s ++ [ev])%list)).

Definition reading `{F : Framework} {A : Type} (call : World -> lib_error + A) : M A :=
  fun s => (lift (call (fst s)), s).

Definition writing `{F : Framework} (call : World -> World * option lib_error)
  : M unit :=
  fun s =>
    match call (fst s) with
    | (w, None) => (Ok tt, (w, snd s))
    | (w, Some e) => (Raise (External e), (w, snd s))
    end.

Declare Scope cell_scope.
Delimit Scope cell_scope with cell.
Notation "x <- c1 ;; c2" := (mbind c1 (fun x => c2))
  (at level 61, c1 at next level, right associativity) : cell_scope.
Notation "c1 ;; c2" := (mbind c1 (fun _ => c2))
  (at level 61, right associativity) : cell_scope.

Local Open Scope cell_scope.

(** [dpr.io.Path(path).mkdir(exist_ok=True)] *)
Definition Path_mkdir `{F : Framework} (path : string) : M unit :=
  emit (Mkdir path) ;; writing (mkdir path).

(** [dpr.vocab.size(path)] *)
Definition dpr_vocab_size `{F : Framework} (path : string) : M Z :=
  emit (VocabSize path) ;; reading (vocab_size path).

(** [job.run()] *)
Definition Job_run `{F : Framework} (job : value) : M unit :=
  emit (Started job) ;; writing (run job) ;; emit (Finished job).

(** Modelled from the spec: [dpr.jobs.Pipeline] and its [run] method live in
    the deepr package.  The spec describes the stages as sequential, and the
    notebook says that the pipeline is lazy and that calling run on it
    performs all the steps: a pipeline keeps its list of jobs, and running
    it runs each job in list order, the next one once the previous one has
    returned. *)
Record Pipeline : Type := { jobs : list value }.

Fixpoint run_jobs `{F : Framework} (l : list value) : M unit :=
  match l with
  | [] => ret tt
  | job :: rest => Job_run job ;; run_jobs rest
  end.

Definition Pipeline_run `{F : Framework} (p : Pipeline) : M unit :=
  run_jobs (jobs p).

(** *** The paths cell *)

Definition dataset_path `{F : Framework} : string := getcwd ++ "/ml-20m".
Definition path_ratings `{F : Framework} : string := dataset_path ++ "/ratings.csv".
Definition path_root : string := "average".
Definition path_model : string := path_root ++ "/model".
Definition path_data : string := path_root ++ "/data".
Definition path_variables : string := path_root ++ "/variables".
Definition path_predictions : string := path_root ++ "/predictions.parquet.snappy".
Definition path_saved_model : string := path_root ++ "/saved_model".
Definition path_mapping : string := path_data ++ "/mapping.txt".
Definition path_train : string := path_data ++ "/train.tfrecord.gz".
Definition path_eval : string := path_data ++ "/eval.tfrecord.gz".
Definition path_test : string := path_data ++ "/test.tfrecord.gz".
Definition max_steps : Z := 100000.

Definition cell_paths `{F : Framework} : M unit :=
  Path_mkdir path_root ;; Path_mkdir path_model ;; Path_mkdir path_data.

(** *** Step 1: the records job *)

Definition build `{F : Framework} : value :=
  VObj "movielens.jobs.BuildRecords" []
    [ ("path_ratings", VStr path_ratings);
      ("path_mapping", VStr path_mapping);
      ("path_train", VStr path_train);
      ("path_eval", VStr path_eval);
      ("path_test", VStr path_test);
      ("min_rating", VInt 4);
      ("min_length", VInt 5);
      ("num_negatives", VInt 8);
      ("target_ratio", VFloat "0.2");
      ("size_test", VInt 10000);
      ("size_eval", VInt 10000);
      ("shuffle_timelines", VBool true);
      ("seed", VInt 2020) ].

Definition cell_build `{F : Framework} : M value := ret build.

(** *** Step 2: the training job *)

Definition exporters : list value :=
  [ VObj "dpr.exporters.BestCheckpoint" []
      [ ("metric", VStr "triplet_precision"); ("mode", VStr "increase") ];
    VObj "dpr.exporters.SaveVariables" []
      [ ("path_variables", VStr path_variables);
        ("variable_names", VList [VStr "biases"; VStr "embeddings"]) ];
    VObj "dpr.exporters.SavedModel" []
      [ ("path_saved_model", VStr path_saved_model);
        ("fields",
         VList
           [ VObj "dpr.Field" []
               [ ("name", VStr "inputPositives");
                 ("shape", VTuple [VNone]);
                 ("dtype", VName "tf.int64") ];
             VObj "dpr.Field" []
               [ ("name", VStr "inputMask");
                 ("shape", VTuple [VNone]);
                 ("dtype", VName "tf.bool") ] ]) ] ].

Definition train_hooks : list value :=
  [ VObj "dpr.hooks.LoggingTensorHookFactory" []
      [ ("name", VStr "training");
        ("functions",
         VDict
           [ ("memory_gb", VObj "dpr.hooks.ResidentMemory" [] [("unit", VStr "gb")]);
             ("max_memory_gb",
              VObj "dpr.hooks.MaxResidentMemory" [] [("unit", VStr "gb")]) ]);
        ("every_n_iter", VInt 300);
        ("use_graphite", VBool false);
        ("use_mlflow", VBool false) ];
    VObj "dpr.hooks.SummarySaverHookFactory" [] [("save_steps", VInt 300)];
    VObj "dpr.hooks.NumParamsHook" [] [("use_mlflow", VBool false)];
    VObj "dpr.hooks.LogVariablesInitHook" [] [("use_mlflow", VBool false)];
    VObj "dpr.hooks.StepsPerSecHook" []
      [ ("name", VStr "training");
        ("batch_size", VInt 128);
        ("every_n_steps", VInt 300);
        ("skip_after_step", VInt max_steps);
        ("use_mlflow", VBool false);
        ("use_graphite", VBool false) ];
    VObj "dpr.hooks.EarlyStoppingHookFactory" []
      [ ("metric", VStr "triplet_precision");
        ("mode", VStr "increase");
        ("max_steps_without_improvement", VInt 1000);
        ("min_steps", VInt 5000);
        ("run_every_steps", VInt 300);
        ("final_step", VInt max_steps) ] ].

(** The [Trainer(...)] call, given the values the two [dpr.vocab.size]
    calls among its arguments returned. *)
Definition Trainer (vocab_size_pred vocab_size_loss : Z) : value :=
  VObj "dpr.jobs.Trainer" []
    [ ("path_model", VStr path_model);
      ("pred_fn",
       VObj "movielens.layers.AverageModel" []
         [ ("vocab_size", VInt vocab_size_pred);
           ("dim", VInt 100);
           ("keep_prob", VFloat "0.5") ]);
      ("loss_fn",
       VObj "movielens.layers.Loss" []
         [ ("loss", VStr "bpr"); ("vocab_size", VInt vocab_size_loss) ]);
      ("optimizer_fn",
       VObj "dpr.optimizers.TensorflowOptimizer"
         [VStr "LazyAdam"; VFloat "0.001"] []);
      ("train_input_fn", VObj "dpr.readers.TFRecordReader" [VStr path_train] []);
      ("eval_input_fn",
       VObj "dpr.readers.TFRecordReader" [VStr path_eval]
         [("shuffle", VBool false)]);
      ("prepro_fn",
       VObj "movielens.prepros.RecordPrepro" []
         [ ("min_input_size", VInt 3);
           ("min_target_size", VInt 3);
           ("max_input_size", VInt 50);
           ("max_target_size", VInt 50);
           ("buffer_size", VInt 1024);
           ("batch_size", VInt 128);
           ("repeat_size", VNone);
           ("prefetch_size", VInt 1);
           ("num_parallel_calls", VInt 8) ]);
      ("train_spec", VObj "dpr.jobs.TrainSpec" [] [("max_steps", VInt max_steps)]);
      ("eval_spec",
       VObj "dpr.jobs.EvalSpec" []
         [ ("steps", VNone);
           ("start_delay_secs", VInt 30);
           ("throttle_secs", VInt 30) ]);
      ("final_spec", VObj "dpr.jobs.FinalSpec" [] [("steps", VNone)]);
      ("exporters", VList exporters);
      ("train_hooks", VList train_hooks);
      ("eval_hooks",
       VList
         [ VObj "dpr.hooks.LoggingTensorHookFactory" []
             [("name", VStr "validation"); ("at_end", VBool true)] ]);
      ("final_hooks",
       VList
         [ VObj "dpr.hooks.LoggingTensorHookFactory" []
             [("name", VStr "final_validation"); ("at_end", VBool true)] ]);
      ("train_metrics",
       VList
         [ VObj "dpr.metrics.StepCounter" [] [("name", VStr "num_steps")];
           VObj "dpr.metrics.DecayMean" []
             [("tensors", VList [VStr "loss"]); ("decay", VFloat "0.98")] ]);
      ("eval_metrics",
       VList
         [ VObj "dpr.metrics.Mean" []
             [("tensors", VList [VStr "loss"; VStr "triplet_precision"])] ]);
      ("final_metrics",
       VList
         [ VObj "dpr.metrics.Mean" []
             [("tensors", VList [VStr "loss"; VStr "triplet_precision"])] ]);
      ("run_config",
       VObj "dpr.jobs.RunConfig" []
         [ ("save_checkpoints_steps", VInt 300);
           ("save_summary_steps", VInt 300);
           ("keep_checkpoint_max", VNone);
           ("log_step_count_steps", VInt 300) ]);
      ("config_proto",
       VObj "dpr.jobs.ConfigProto" []
         [ ("inter_op_parallelism_threads", VInt 8);
           ("intra_op_parallelism_threads", VInt 8);
           ("gpu_device_count", VInt 0);
           ("cpu_device_count", VInt 48) ]) ].

(** The training cell: the arguments of [Trainer(...)] are evaluated in the
    order they are written, so the mapping file is measured once for
    [pred_fn] and once more for [loss_fn] before the job object exists. *)
Definition cell_train `{F : Framework} : M value :=
  vocab_size_pred <- dpr_vocab_size path_mapping ;;
  vocab_size_loss <- dpr_vocab_size path_mapping ;;
  ret (Trainer vocab_size_pred vocab_size_loss).

(** *** Step 3: the prediction job *)

Definition predict : value :=
  VObj "movielens.jobs.Predict" []
    [ ("path_saved_model", VStr path_saved_model);
      ("path_predictions", VStr path_predictions);
      ("input_fn",
       VObj "dpr.readers.TFRecordReader" [VStr path_test]
         [("shuffle", VBool false)]);
      ("prepro_fn", VObj "movielens.prepros.RecordPrepro" [] []) ].

Definition cell_predict `{F : Framework} : M value := ret predict.

(** *** Step 4: the evaluation jobs *)

Definition Evaluate (k : Z) : value :=
  VObj "movielens.jobs.Evaluate" []
    [ ("path_predictions", VStr path_predictions);
      ("path_embeddings", VStr (path_variables ++ "/embeddings"));
      ("path_biases", VStr (path_variables ++ "/biases"));
      ("k", VInt k) ].

Definition evaluate : list value := map Evaluate [10; 20; 50]%Z.

Definition cell_evaluate `{F : Framework} : M (list value) := ret evaluate.

(** *** Running the pipeline *)

Definition cell_pipeline `{F : Framework} (train predict : value)
  (evaluate : list value) : M Pipeline :=
  ret {| jobs := ([train; predict] ++ evaluate)%list |}.

(** The cells of the notebook from the paths cell to [pipeline.run()], in
    the order they stand. *)
Definition notebook `{F : Framework} : M unit :=
  cell_paths ;;
  build <- cell_build ;;
  Job_run build ;;
  train <- cell_train ;;
  predict <- cell_predict ;;
  evaluate <- cell_evaluate ;;
  pipeline <- cell_pipeline train predict evaluate ;;
  Pipeline_run pipeline.

(** The world a call leaves. *)
Definition after_mkdir `{F : Framework} (path : string) (w : World) : World :=
  fst (mkdir path w).

Definition after `{F : Framework} (job : value) (w : World) : World :=
  fst (run job w).

(** The world in which the training cell measures the mapping file. *)
Definition world_after_build `{F : Framework} (w : World) : World :=
  after build
    (after_mkdir path_data (after_mkdir path_model (after_mkdir path_root w))).

(** The world a complete run leaves, stage after stage. *)
Definition world_after_stages `{F : Framework} (n : Z) (w : World) : World :=
  after (Evaluate 50)
    (after (Evaluate 20)
       (after (Evaluate 10)
          (after predict (after (Trainer n n) (world_after_build w))))).

Definition is_started_Evaluate (ev : event) : bool :=
  match ev with
  | Started job => String.eqb (class_of job) "movielens.jobs.Evaluate"
  | _ => false
  end.

(** The events of a complete run, given what the two measurements of the
    mapping file returned. *)
Definition complete_run `{F : Framework} (n1 n2 : Z) : list event :=
  [ Mkdir path_root; Mkdir path_model; Mkdir path_data;
    Started build; Finished build;
    VocabSize path_mapping; VocabSize path_mapping;
    Started (Trainer n1 n2); Finished (Trainer n1 n2);
    Started predict; Finished predict;
    Started (Evaluate 10); Finished (Evaluate 10);
    Started (Evaluate 20); Finished (Evaluate 20);
    Started (Evaluate 50); Finished (Evaluate 50) ].

End Notebook.

(** ** Auxiliary definitions for the statements *)

(** The value the last item with key [k] gives in a list of items. *)
Fixpoint last_value {V : Type} (k : Z) (l : list (Z * V)) : option V :=
  match l with
  | [] => None
  | (k', v) :: rest =>
      match last_value k rest with
      | Some v' => Some v'
      | None => if Z.eqb k k' then Some v else None
      end
  end.

(** Assigning the items of [l] to [d] in turn: what a dict comprehension
    does once its keys and values are known. *)
Definition assign_all {V : Type} (l : list (Z * V)) (d : dict V) : dict V :=
  fold_left (fun d kv => setitem (fst kv) (snd kv) d) l d.

(** [i, i+1, ..., i+n-1] *)
Fixpoint indices (i : Z) (n : nat) : list Z :=
  match n with
  | O => []
  | S n' => i :: indices (i + 1) n'
  end.

(** The dictionary built from the keys [ks] in enumeration order. *)
Definition enumerated (ks : list Z) : dict Z :=
  assign_all (combine ks (indices 0 (length ks))) [].

Definition swap {A B : Type} (p : A * B) : B * A := (snd p, fst p).

(** A movie id occurs in the movieId column. *)
Definition listed (movies : list Visualize.movie) (movie_id : Z) : Prop :=
  In movie_id (map Visualize.movieId movies).

(** ** Concrete inputs *)

Module Demo.

Import Visualize Notebook.

Local Open Scope string_scope.

(** A flat index that holds no vector: as faiss does when it finds fewer
    than [k] neighbours, the missing labels are -1. *)
Definition empty_index : Index (list Z) Z :=
  {| search := fun queries k =>
       inr (map (fun _ => repeat 0 (Z.to_nat k)) queries,
            map (fun _ => repeat (-1) (Z.to_nat k)) queries) |}.

(** An index over the three vectors of [mapping3], answering every query
    with the labels 2, 0, 1 cut to the number asked for. *)
Definition small_index : Index (list Z) Z :=
  {| search := fun queries k =>
       inr (map (fun _ => firstn (Z.to_nat k) [30; 20; 10]) queries,
            map (fun _ => firstn (Z.to_nat k) [2; 0; 1]) queries) |}.

(** An index whose search fails. *)
Definition broken_index : Index (list Z) Z :=
  {| search := fun _ _ => inl "Error in faiss search" |}.

Definition line (a b : string) : string := a ++ String newline b.

Definition mapping3 : string := line "260" (line "1196" "1210").
Definition mapping_trailing : string := line "260" (line "1196" "").
Definition mapping_repeated : string := line "260" (line "1196" "260").

Definition movies3 : list movie :=
  [ {| movieId := 260; title := "Star Wars: Episode IV - A New Hope (1977)";
       genres := "Action|Adventure|Sci-Fi" |};
    {| movieId := 1196;
       title := "Star Wars: Episode V - The Empire Strikes Back (1980)";
       genres := "Action|Adventure|Sci-Fi" |};
    {| movieId := 1210;
       title := "Star Wars: Episode VI - Return of the Jedi (1983)";
       genres := "Action|Adventure|Sci-Fi" |} ].

(** A world that is the list of the paths that exist: [mkdir] adds its path,
    running the records job adds its mapping file, and [dpr.vocab.size]
    fails on a path that does not exist. *)
Definition files : Framework :=
  {| World := list string;
     getcwd := "/home/user";
     mkdir := fun path w => (path :: w, None);
     vocab_size := fun path w =>
       if existsb (String.eqb path) w then inr 3%Z
       else inl "FileNotFoundError";
     run := fun job w =>
       match kwarg "path_mapping" job with
       | Some (VStr path) => (path :: w, None)
       | _ => (w, None)
       end |}.

End Demo.

(** ** The query cell and the files the visualisation cell opens *)

Module Query.

Import Visualize.

Local Open Scope string_scope.

(** The paths the visualisation cell spells out where it reads the
    embeddings, the mapping file and the movies table. *)
Definition embeddings_file : string := "average/variables/embeddings".
Definition mapping_file : string := "average/data/mapping.txt".
Definition movies_file `{F : Notebook.Framework} : string :=
  Notebook.dataset_path ++ "/movies.csv".

(** [str.lower] on code points below 256: the capital letters A to Z and
    192 to 222 without 215 move up by 32, everything else stays. *)
Definition lower_char (c : ascii) : ascii :=
  let n := nat_of_ascii c in
  if ((65 <=? n) && (n <=? 90)
      || (192 <=? n) && (n <=? 222) && negb (n =? 215))%nat
  then ascii_of_nat (n + 32)
  else c.

Fixpoint lower (s : string) : string :=
  match s with
  | EmptyString => EmptyString
  | String c rest => String (lower_char c) (lower rest)
  end.

(** [str.contains(pat)] for a pattern without special characters: [pat]
    occurs somewhere in [s]. *)
Fixpoint contains (pat s : string) : bool :=
  prefix pat s ||
  match s with
  | EmptyString => false
  | String _ rest => contains pat rest
  end.

(** [a[i]] on a numpy array for an integer [i]: a negative index counts
    from the end, an index outside the array raises IndexError. *)
Definition ndarray_getitem {A : Type} (a : list A) (i : Z) : result A :=
  let n := Z.of_nat (List.length a) in
  let j := (if i <? 0 then n + i else i)%Z in
  if ((0 <=? j) && (j <? n))%Z then
    match nth_error a (Z.to_nat j) with
    | Some x => Ok x
    | None => Raise IndexError
    end
  else Raise IndexError.

(** What a cell puts out: printed lines and displayed frames. *)
Inductive output (Dist : Type) : Type :=
| Printed (s : string)
| Displayed (df : DataFrame Dist).

Arguments Printed {Dist} s.
Arguments Displayed {Dist} df.

(** [movies[movies.title.str.lower().str.contains("star wars")]["movieId"].to_numpy()[0]] *)
Definition star_wars_id (movies : list movie) : result Z :=
  item0 (map movieId
           (filter (fun m => contains "star wars" (lower (title m))) movies)).

(** [knn_query(index, embeddings[mapp[p]], 5)]: the arguments are evaluated
    before the call. *)
Definition neighbours {Dist : Type} (mapp inversed_map : dict Z)
  (embeddings : list (list Dist)) (index : Index (list Dist) Dist) (p : Z)
  : result (list (Z * Dist)) :=
  (i <- getitem mapp p ;;
   query <- ndarray_getitem embeddings i ;;
   knn_query inversed_map index query 5)%result.

(** The last cell.  It returns what it has put out and how it ended; the
    frames a helper displays are the ones it adds to an empty output. *)
Definition query_cell {Dist : Type} (movies : list movie)
  (mapp inversed_map : dict Z) (embeddings : list (list Dist))
  (index : Index (list Dist) Dist) : list (output Dist) * result unit :=
  match star_wars_id movies with
  | Raise e => ([], Raise e)
  | Ok p =>
      let out := [Printed "Query"] in
      match display_movie movies p [] with
      | Raise e => (out, Raise e)
      | Ok shown =>
          let out := (out ++ map Displayed shown ++ [Printed "Knn results"])%list in
          match neighbours mapp inversed_map embeddings index p with
          | Raise e => (out, Raise e)
          | Ok results =>
              match display_results_df movies results [] with
              | Raise e => (out, Raise e)
              | Ok shown => ((out ++ map Displayed shown)%list, Ok tt)
              end
          end
      end
  end.

End Query.

(** ** More auxiliary definitions *)

(** [sep.join(pieces)] *)
Fixpoint join (sep : ascii) (pieces : list string) : string :=
  match pieces with
  | [] => EmptyString
  | [piece] => piece
  | piece :: rest => (piece ++ String sep (join sep rest))%string
  end.

(** The character [c] occurs in [s]. *)
Fixpoint occurs (c : ascii) (s : string) : bool :=
  match s with
  | EmptyString => false
  | String c' rest => Ascii.eqb c' c || occurs c rest
  end.

(** The frame with the genres and the title of one movie. *)
Definition movie_frame {Dist : Type} (m : Visualize.movie)
  : Visualize.DataFrame Dist :=
  {| Visualize.columns := ["Genre"; "Title"]%string;
     Visualize.values := [[Visualize.Text (Visualize.genres m);
                           Visualize.Text (Visualize.title m)]] |}.

Module Demo2.

Import Visualize Query Demo.

Local Open Scope string_scope.

(** Three embedding rows, one per line of [mapping3]. *)
Definition embeddings3 : list (list Z) := [[3; 0]; [2; 1]; [1; 2]].

(** An index answering every query with the labels 0, 1, 2, 0, 1 cut to the
    number asked for. *)
Definition index5 : Index (list Z) Z :=
  {| search := fun queries k =>
       inr (map (fun _ => firstn (Z.to_nat k) [50; 40; 30; 20; 10]) queries,
            map (fun _ => firstn (Z.to_nat k) [0; 1; 2; 0; 1]) queries) |}.

Definition movies_plain : list movie :=
  [ {| movieId := 1; title := "Toy Story (1995)";
       genres := "Adventure|Animation|Children|Comedy|Fantasy" |} ].

End Demo2.

(** ** The run, stage by stage *)

Module Stages.

Import Notebook.

Local Open Scope string_scope.

(** A run that the framework's exception [e] ended in the world [w], after
    the first [k] events of the complete run. *)
Definition stopped `{F : Framework} (e : lib_error) (w : World) (k : nat)
  (n : Z) : result unit * (World * list event) :=
  (Raise (External e), (w, firstn k (complete_run n n))).

(** The run read as a chain of framework calls: each call starts in the
    world the call before it left, the first call that fails ends the run,
    and the run ends normally when none does. *)
Definition stage_by_stage `{F : Framework} (w : World)
  : result unit * (World * list event) :=
  match mkdir path_root w with
  | (w1, Some e) => stopped e w1 1 0
  | (w1, None) =>
  match mkdir path_model w1 with
  | (w2, Some e) => stopped e w2 2 0
  | (w2, None) =>
  match mkdir path_data w2 with
  | (w3, Some e) => stopped e w3 3 0
  | (w3, None) =>
  match run build w3 with
  | (w4, Some e) => stopped e w4 4 0
  | (w4, None) =>
  match vocab_size path_mapping w4 with
  | inl e => stopped e w4 6 0
  | inr n =>
  match run (Trainer n n) w4 with
  | (w5, Some e) => stopped e w5 8 n
  | (w5, None) =>
  match run predict w5 with
  | (w6, Some e) => stopped e w6 10 n
  | (w6, None) =>
  match run (Evaluate 10) w6 with
  | (w7, Some e) => stopped e w7 12 n
  | (w7, None) =>
  match run (Evaluate 20) w7 with
  | (w8, Some e) => stopped e w8 14 n
  | (w8, None) =>
  match run (Evaluate 50) w8 with
  | (w9, Some e) => stopped e w9 16 n
  | (w9, None) => (Ok tt, (w9, complete_run n n))
  end end end end end end end end end end.

(** Every framework call of the run succeeds, each in the world the calls
    before it left, and the mapping file measures [n]. *)
Definition calls_succeed `{F : Framework} (w : World) (n : Z) : Prop :=
  snd (mkdir path_root w) = None /\
  snd (mkdir path_model (after_mkdir path_root w)) = None /\
  snd (mkdir path_data (after_mkdir path_model (after_mkdir path_root w))) = None /\
  snd (run build
         (after_mkdir path_data
            (after_mkdir path_model (after_mkdir path_root w)))) = None /\
  vocab_size path_mapping (world_after_build w) = inr n /\
  snd (run (Trainer n n) (world_after_build w)) = None /\
  snd (run predict (after (Trainer n n) (world_after_build w))) = None /\
  snd (run (Evaluate 10)
         (after predict (after (Trainer n n) (world_after_build w)))) = None /\
  snd (run (Evaluate 20)
         (after (Evaluate 10)
            (after predict (after (Trainer n n) (world_after_build w))))) = None /\
  snd (run (Evaluate 50)
         (after (Evaluate 20)
            (after (Evaluate 10)
               (after predict (after (Trainer n n) (world_after_build w)))))) = None.

(** Modelled from the spec: [Evaluate.run] lives in the deepr package.  The
    spec says that metrics are printed at the end of evaluation, and the
    notebook lists the lines to expect: one record for each Evaluate job,
    with precision, recall, f1 and NDCG at the job's k.  The values are
    left out; a metric is its name and its k. *)
Definition metrics_of (job : value) : list (string * Z) :=
  if String.eqb (class_of job) "movielens.jobs.Evaluate" then
    match kwarg "k" job with
    | Some (VInt k) => [("precision", k); ("recall", k); ("f1", k); ("NDCG", k)]
    | _ => []
    end
  else [].

(** The metrics a run has printed: those of every job that has finished. *)
Definition printed_metrics (log : list event) : list (string * Z) :=
  flat_map (fun ev => match ev with
                      | Finished job => metrics_of job
                      | _ => []
                      end) log.

Definition metrics_at (k : Z) : list (string * Z) :=
  [("precision", k); ("recall", k); ("f1", k); ("NDCG", k)].

End Stages.

(** ** Reading the mapping file *)

Module MappingFile.

(** What the built-in [open(path, "r").read()] raises when the file cannot
    be opened or its bytes cannot be decoded: an OSError such as
    FileNotFoundError, or a UnicodeDecodeError. *)
Inductive read_error : Type :=
| OSError (name : string)
| UnicodeDecodeError.

(** How the line that builds [mapp] can end early: with the exception of
    [open(...).read()], or with an exception of the comprehension over the
    text read. *)
Inductive line_exn : Type :=
| Reading (e : read_error)
| Building (e : exn).

(** [mapp = {... for ... in enumerate(open("average/data/mapping.txt", "r")
    .read().split("\n"))}], where [files path] is what
    [open(path, "r").read()] gives: the file is read before the
    comprehension starts. *)
Definition mapp_of_file (files : string -> read_error + string)
  : line_exn + dict Z :=
  match files Query.mapping_file with
  | inl e => inl (Reading e)
  | inr content =>
      match Visualize.mapp content with
      | Ok m => inr m
      | Raise e => inl (Building e)
      end
  end.

(** A file system that holds the mapping file alone. *)
Definition only_mapping (content : string) (path : string)
  : read_error + string :=
  if String.eqb path Query.mapping_file then inr content
  else inl (OSError "FileNotFoundError").

(** A file system without any file. *)
Definition no_file (path : string) : read_error + string :=
  inl (OSError "FileNotFoundError").

End MappingFile.

(** A framework whose training job fails and whose other calls succeed. *)
Definition training_fails : Notebook.Framework :=
  {| Notebook.World := list string;
     Notebook.getcwd := "/home/user";
     Notebook.mkdir := fun path w => (path :: w, None);
     Notebook.vocab_size := fun _ _ => inr 3;
     Notebook.run := fun job w =>
       if String.eqb (Notebook.class_of job) "dpr.jobs.Trainer"
       then (w, Some "ResourceExhaustedError"%string)
       else (w, None) |}.

(** * Facts about the built-ins *)

Section DictFacts.

Context {V : Type}.

Implicit Types (d : dict V) (k : Z) (v : V).

Lemma get_setitem k k' v d :
  get k' (setitem k v d) = if Z.eqb k' k then Some v else get k' d.
Proof.
  induction d as [|[k0 v0] rest IH]; simpl.
  - reflexivity.
  - destruct (Z.eqb_spec k k0) as [->|Hne]; simpl.
    + destruct (Z.eqb k' k0); reflexivity.
    + rewrite IH. destruct (Z.eqb_spec k' k0) as [->|]; [|reflexivity].
      destruct (Z.eqb_spec k0 k); [congruence | reflexivity].
Qed.

Lemma get_some_in k v d : get k d = Some v -> In (k, v) d.
Proof.
  induction d as [|[k0 v0] rest IH]; simpl; [discriminate|].
  destruct (Z.eqb_spec k k0) as [->|]; intros H.
  - injection H as ->. now left.
  - right. now apply IH.
Qed.

Lemma get_none_iff k d : get k d = None <-> ~ In k (keys d).
Proof.
  induction d as [|[k0 v0] rest IH]; simpl.
  - tauto.
  - destruct (Z.eqb_spec k k0) as [->|Hne].
    + split; [discriminate | intros H; exfalso; apply H; now left].
    + rewrite IH. unfold keys. split; intros H; [|tauto].
      intros [Heq|Hin]; [congruence | tauto].
Qed.

Lemma in_keys_get k d : In k (keys d) -> exists v, get k d = Some v.
Proof.
  intros Hin. destruct (get k d) as [v|] eqn:E; [now exists v|].
  apply get_none_iff in E. contradiction.
Qed.

Lemma get_in_keys k v d : get k d = Some v -> In k (keys d).
Proof.
  intros H. apply get_some_in in H. unfold keys.
  change k with (fst (k, v)). now apply in_map.
Qed.

Lemma in_get_nodup k v d : NoDup (keys d) -> In (k, v) d -> get k d = Some v.
Proof.
  induction d as [|[k0 v0] rest IH]; simpl; [tauto|].
  intros Hnd [Heq|Hin].
  - injection Heq as -> ->. now rewrite Z.eqb_refl.
  - inversion Hnd as [|? ? Hnotin Hnd']; subst.
    destruct (Z.eqb_spec k k0) as [->|]; [|now apply IH].
    exfalso. apply Hnotin. change k0 with (fst (k0, v)). now apply in_map.
Qed.

Lemma in_keys_setitem k k' v d :
  In k' (keys (setitem k v d)) <-> k' = k \/ In k' (keys d).
Proof.
  split.
  - intros Hin. apply in_keys_get in Hin as [v' Hget].
    rewrite get_setitem in Hget.
    destruct (Z.eqb_spec k' k); [now left | right; eauto using get_in_keys].
  - intros H. destruct (get k' (setitem k v d)) as [v'|] eqn:E.
    + eauto using get_in_keys.
    + rewrite get_setitem in E. destruct (Z.eqb_spec k' k); [discriminate|].
      apply get_none_iff in E. destruct H; [congruence | contradiction].
Qed.

Lemma keys_setitem_nodup k v d : NoDup (keys d) -> NoDup (keys (setitem k v d)).
Proof.
  induction d as [|[k0 v0] rest IH]; simpl; intros Hnd.
  - constructor; [simpl; tauto | constructor].
  - inversion Hnd as [|? ? Hnotin Hnd']; subst.
    destruct (Z.eqb_spec k k0) as [->|Hne]; simpl.
    + now constructor.
    + constructor; [|now apply IH].
      intros Hin. apply (in_keys_setitem k k0 v rest) in Hin.
      destruct Hin; [congruence | contradiction].
Qed.

Lemma keys_assign_all_nodup (l : list (Z * V)) d :
  NoDup (keys d) -> NoDup (keys (assign_all l d)).
Proof.
  unfold assign_all. revert d.
  induction l as [|[k v] rest IH]; intros d Hnd; simpl.
  - exact Hnd.
  - apply IH. now apply keys_setitem_nodup.
Qed.

(** A comprehension's dictionary looks a key up as the last item that
    mentions it. *)
Lemma get_assign_all k (l : list (Z * V)) d :
  get k (assign_all l d) =
  match last_value k l with
  | Some v => Some v
  | None => get k d
  end.
Proof.
  unfold assign_all. revert d.
  induction l as [|[k0 v0] rest IH]; intros d; simpl.
  - reflexivity.
  - rewrite IH.
    destruct (last_value k rest); [reflexivity|].
    rewrite get_setitem. now destruct (Z.eqb k k0).
Qed.

Lemma last_value_in k v (l : list (Z * V)) : last_value k l = Some v -> In (k, v) l.
Proof.
  induction l as [|[k0 v0] rest IH]; simpl; [discriminate|].
  destruct (last_value k rest) as [v'|].
  - intros H. right. now apply IH.
  - destruct (Z.eqb_spec k k0) as [->|]; [|discriminate].
    intros H. injection H as ->. now left.
Qed.

Lemma last_value_none k (l : list (Z * V)) :
  last_value k l = None <-> ~ In k (map fst l).
Proof.
  induction l as [|[k0 v0] rest IH]; simpl; [tauto|].
  destruct (last_value k rest) as [v'|].
  - split; [discriminate|]. intros H. exfalso. apply H. right.
    destruct IH as [_ IH]. destruct (in_dec Z.eq_dec k (map fst rest)); [assumption|].
    now specialize (IH n).
  - destruct (Z.eqb_spec k k0) as [->|Hne].
    + split; [discriminate | intros H; exfalso; apply H; now left].
    + split; [|reflexivity]. intros _ [Heq|Hin]; [congruence|].
      now apply IH in Hin.
Qed.

End DictFacts.

Section BuiltinFacts.

Lemma split_nonempty sep s : split sep s <> [].
Proof.
  destruct s as [|c rest]; simpl; [discriminate|].
  destruct (Ascii.eqb c sep); [discriminate|].
  destruct (split sep rest); discriminate.
Qed.

(** A text that ends with the separator ends with an empty piece. *)
Lemma split_trailing_separator sep s :
  split sep (s ++ String sep "") = split sep s ++ [""%string].
Proof.
  induction s as [|c rest IH]; simpl.
  - now rewrite Ascii.eqb_refl.
  - destruct (Ascii.eqb c sep); [now rewrite IH|].
    rewrite IH. destruct (split sep rest) eqn:E; [|reflexivity].
    now apply split_nonempty in E.
Qed.

Lemma int_raises_only_ValueError s e : int s = Raise e -> e = ValueError.
Proof.
  unfold int. intros H.
  destruct (match strip (list_ascii_of_string s) with [] => _ | _ :: _ => _ end);
    congruence.
Qed.

Lemma comprehension_cons_ok {A B : Type} (f : A -> result B) x rest ys :
  comprehension f (x :: rest) = Ok ys ->
  exists y ys', f x = Ok y /\ comprehension f rest = Ok ys' /\ ys = y :: ys'.
Proof.
  simpl. destruct (f x) as [y|]; simpl; [|discriminate].
  destruct (comprehension f rest) as [ys'|]; simpl; [|discriminate].
  intros H. injection H as <-. eauto.
Qed.

Lemma comprehension_length {A B : Type} (f : A -> result B) l ys :
  comprehension f l = Ok ys -> length ys = length l.
Proof.
  revert ys. induction l as [|x rest IH]; intros ys H.
  - simpl in H. injection H as <-. reflexivity.
  - apply comprehension_cons_ok in H as (y & ys' & _ & Hrest & ->).
    simpl. f_equal. now apply IH.
Qed.

Lemma comprehension_forall2 {A B : Type} (f : A -> result B) l ys :
  comprehension f l = Ok ys -> Forall2 (fun x y => f x = Ok y) l ys.
Proof.
  revert ys. induction l as [|x rest IH]; intros ys H.
  - simpl in H. injection H as <-. constructor.
  - apply comprehension_cons_ok in H as (y & ys' & Hx & Hrest & ->).
    constructor; [assumption | now apply IH].
Qed.

(** A comprehension over a list whose elements all succeed succeeds. *)
Lemma comprehension_total {A B : Type} (f : A -> result B) l :
  Forall (fun x => exists y, f x = Ok y) l -> exists ys, comprehension f l = Ok ys.
Proof.
  induction 1 as [|x rest [y Hy] _ [ys IH]]; simpl.
  - now exists [].
  - rewrite Hy, IH. simpl. now exists (y :: ys).
Qed.

(** A comprehension stops with the exception of the first element that
    raises one. *)
Lemma comprehension_first_raise {A B : Type} (f : A -> result B) pre x post e :
  Forall (fun x => exists y, f x = Ok y) pre -> f x = Raise e ->
  comprehension f (pre ++ x :: post) = Raise e.
Proof.
  induction 1 as [|x0 rest [y Hy] _ IH]; intros Hx; simpl.
  - now rewrite Hx.
  - rewrite Hy. simpl. now rewrite IH.
Qed.

Lemma comprehension_raise_inv {A B : Type} (f : A -> result B) l e :
  comprehension f l = Raise e -> exists x, In x l /\ f x = Raise e.
Proof.
  induction l as [|x rest IH]; simpl; [discriminate|].
  destruct (f x) as [y|e'] eqn:Hx; simpl.
  - destruct (comprehension f rest) as [ys|e'']; simpl; [discriminate|].
    intros H. injection H as ->. destruct IH as (x' & Hin & Hx'); eauto.
  - intros H. injection H as ->. eauto.
Qed.

Lemma in_indices k i n : In k (indices i n) <-> i <= k < i + Z.of_nat n.
Proof.
  revert i. induction n as [|n IH]; intros i; simpl.
  - lia.
  - rewrite IH. lia.
Qed.

Lemma indices_nodup i n : NoDup (indices i n).
Proof.
  revert i. induction n as [|n IH]; intros i; simpl; constructor.
  - rewrite in_indices. lia.
  - apply IH.
Qed.

Lemma length_indices i n : length (indices i n) = n.
Proof.
  revert i. induction n as [|n IH]; intros i; simpl; [reflexivity|].
  now rewrite IH.
Qed.

Lemma map_fst_combine {A B : Type} (a : list A) (b : list B) :
  length a = length b -> map fst (combine a b) = a.
Proof.
  revert b. induction a as [|x a IH]; intros [|y b]; simpl; try discriminate.
  - reflexivity.
  - intros H. injection H as H. now rewrite IH.
Qed.

Lemma map_swap_combine {A B : Type} (a : list A) (b : list B) :
  map swap (combine a b) = combine b a.
Proof.
  revert b. induction a as [|x a IH]; intros [|y b]; simpl; try reflexivity.
  now rewrite IH.
Qed.

(** Where the keys [ks] are enumerated from [i], the last item that mentions
    [k] carries the position of the last occurrence of [k]. *)
Lemma last_value_enumerated ks i k v :
  last_value k (combine ks (indices i (length ks))) = Some v ->
  exists p, v = i + Z.of_nat p /\ nth_error ks p = Some k /\
            forall q, (p < q)%nat -> nth_error ks q <> Some k.
Proof.
  revert i. induction ks as [|a rest IH]; intros i; simpl; [discriminate|].
  destruct (last_value k (combine rest (indices (i + 1) (length rest)))) as [v'|] eqn:E.
  - intros H. injection H as <-.
    destruct (IH _ E) as (p & -> & Hp & Hlast).
    exists (S p). repeat split; [lia | exact Hp |].
    intros [|q] Hq; [lia|]. simpl. apply Hlast. lia.
  - destruct (Z.eqb_spec k a) as [->|]; [|discriminate].
    intros H. injection H as <-.
    exists O. repeat split; [lia|].
    intros [|q] Hq; [lia|]. simpl. intros Hnth.
    apply last_value_none in E. apply E.
    rewrite map_fst_combine by now rewrite length_indices.
    eauto using nth_error_In.
Qed.

Lemma last_value_enumerated_some ks i k :
  In k ks -> exists v, last_value k (combine ks (indices i (length ks))) = Some v.
Proof.
  intros Hin.
  destruct (last_value k (combine ks (indices i (length ks)))) as [v|] eqn:E;
    [now exists v|].
  apply last_value_none in E. exfalso. apply E.
  now rewrite map_fst_combine by now rewrite length_indices.
Qed.

End BuiltinFacts.

(** * The dictionaries [mapp] and [inversed_map] *)

Section Mapping.

Import Visualize.

Lemma mapp_comprehension_ok toks : forall i d ks,
  comprehension int toks = Ok ks ->
  mapp_comprehension d (enumerate_from i toks) =
  Ok (assign_all (combine ks (indices i (length ks))) d).
Proof.
  induction toks as [|t rest IH]; intros i d ks H.
  - simpl in H. injection H as <-. reflexivity.
  - apply comprehension_cons_ok in H as (k & ks' & Ht & Hrest & ->).
    simpl. rewrite Ht. simpl. now rewrite (IH _ _ _ Hrest).
Qed.

Lemma mapp_comprehension_raises toks : forall i d tok,
  In tok toks -> int tok = Raise ValueError ->
  mapp_comprehension d (enumerate_from i toks) = Raise ValueError.
Proof.
  induction toks as [|t rest IH]; intros i d tok Hin Htok; [contradiction|].
  simpl. destruct (int t) as [k|e] eqn:Ht; simpl.
  - destruct Hin as [->|Hin]; [congruence|]. eauto.
  - now rewrite (int_raises_only_ValueError _ _ Ht).
Qed.

Lemma mapp_ok content ks :
  comprehension int (split newline content) = Ok ks ->
  mapp content = Ok (assign_all (combine ks (indices 0 (length ks))) []).
Proof.
  intros H. unfold mapp, enumerate. now apply mapp_comprehension_ok.
Qed.


Lemma enumerated_keys_nodup ks : NoDup (keys (enumerated ks)).
Proof. apply keys_assign_all_nodup. constructor. Qed.

(** [mapp] sends a movie id to the position of its last occurrence. *)
Lemma enumerated_get ks k v :
  get k (enumerated ks) = Some v ->
  exists p, v = Z.of_nat p /\ nth_error ks p = Some k /\
            forall q, (p < q)%nat -> nth_error ks q <> Some k.
Proof.
  unfold enumerated. rewrite get_assign_all.
  destruct (last_value k _) as [v'|] eqn:E; [|discriminate].
  intros H. injection H as <-.
  destruct (last_value_enumerated _ _ _ _ E) as (p & -> & Hp & Hlast).
  exists p. split; [lia|]. split; assumption.
Qed.

Lemma enumerated_get_some ks k :
  In k ks -> exists v, get k (enumerated ks) = Some v.
Proof.
  intros Hin. unfold enumerated. rewrite get_assign_all.
  destruct (last_value_enumerated_some ks 0 k Hin) as [v ->]. eauto.
Qed.

Lemma enumerated_injective ks k1 k2 v :
  get k1 (enumerated ks) = Some v -> get k2 (enumerated ks) = Some v -> k1 = k2.
Proof.
  intros H1 H2.
  apply enumerated_get in H1 as (p1 & -> & Hp1 & _).
  apply enumerated_get in H2 as (p2 & Heq & Hp2 & _).
  apply Nat2Z.inj in Heq. subst p2. congruence.
Qed.

Lemma enumerated_keys_incl ks : incl (keys (enumerated ks)) ks.
Proof.
  intros k Hin. apply in_keys_get in Hin as [v Hget].
  apply enumerated_get in Hget as (p & _ & Hp & _).
  eauto using nth_error_In.
Qed.

Lemma inversed_map_assign_all (m : dict Z) :
  inversed_map m = assign_all (map swap m) [].
Proof.
  unfold inversed_map, assign_all, items. generalize (@nil (Z * Z)).
  induction m as [|[k v] rest IH]; intros d; simpl; [reflexivity|].
  apply IH.
Qed.

(** Over a dictionary that sends different keys to different values, the
    inverted dictionary is the inverse. *)
Lemma inversed_map_get (m : dict Z) i k :
  NoDup (keys m) ->
  (forall k1 k2 v, get k1 m = Some v -> get k2 m = Some v -> k1 = k2) ->
  get i (inversed_map m) = Some k <-> get k m = Some i.
Proof.
  intros Hnd Hinj. rewrite inversed_map_assign_all, get_assign_all. simpl.
  split.
  - destruct (last_value i (map swap m)) as [k'|] eqn:E; [|discriminate].
    intros H. injection H as ->.
    apply last_value_in in E. apply in_map_iff in E as ([k0 i0] & Heq & Hin).
    unfold swap in Heq. simpl in Heq. injection Heq as -> ->.
    now apply in_get_nodup.
  - intros Hget.
    destruct (last_value i (map swap m)) as [k'|] eqn:E.
    + f_equal. apply last_value_in in E.
      apply in_map_iff in E as ([k0 i0] & Heq & Hin).
      unfold swap in Heq. simpl in Heq. injection Heq as -> ->.
      apply (Hinj k' k i); [now apply in_get_nodup | assumption].
    + apply last_value_none in E. exfalso. apply E.
      rewrite map_map. apply get_some_in in Hget.
      apply in_map_iff. exists (k, i). now split.
Qed.

Lemma setitem_fresh {V : Type} k (v : V) (d : dict V) :
  ~ In k (keys d) -> setitem k v d = d ++ [(k, v)].
Proof.
  induction d as [|[k0 v0] rest IH]; simpl; intros Hfresh; [reflexivity|].
  destruct (Z.eqb_spec k k0) as [->|]; [tauto|].
  rewrite IH; [reflexivity | tauto].
Qed.

(** Assigning pairwise different keys, none of them present, appends. *)
Lemma assign_all_fresh {V : Type} (l : list (Z * V)) : forall d,
  NoDup (map fst l) -> (forall k, In k (map fst l) -> ~ In k (keys d)) ->
  assign_all l d = d ++ l.
Proof.
  unfold assign_all.
  induction l as [|[k v] rest IH]; intros d Hnd Hfresh; simpl.
  - now rewrite app_nil_r.
  - inversion Hnd as [|? ? Hnotin Hnd']; subst.
    rewrite setitem_fresh by (apply Hfresh; now left).
    rewrite IH; [now rewrite <- app_assoc | assumption |].
    intros k' Hin. unfold keys. rewrite map_app, in_app_iff. simpl.
    intros [Hd|[->|[]]]; [|contradiction].
    apply (Hfresh k'); [now right | assumption].
Qed.

Lemma enumerated_nodup ks :
  NoDup ks -> enumerated ks = combine ks (indices 0 (length ks)).
Proof.
  intros Hnd. unfold enumerated.
  rewrite assign_all_fresh; [reflexivity | | intros ? _ []].
  now rewrite map_fst_combine by now rewrite length_indices.
Qed.

Lemma inversed_map_enumerated_nodup ks :
  NoDup ks ->
  inversed_map (enumerated ks) = combine (indices 0 (length ks)) ks.
Proof.
  intros Hnd. rewrite inversed_map_assign_all, (enumerated_nodup _ Hnd).
  rewrite map_swap_combine.
  rewrite assign_all_fresh; [reflexivity | | intros ? _ []].
  rewrite map_fst_combine by now rewrite length_indices.
  apply indices_nodup.
Qed.

End Mapping.

Section MappingClaims.

Import Visualize.

Local Open Scope result_scope.

(** C8: for a mapping file whose newline-separated tokens all read as
    integers and are pairwise different, [mapp] and [inversed_map] are
    inverse to each other: looking a key [movie_id] of [mapp] up and the
    result up in [inversed_map] gives [movie_id] back, looking a key [i] of
    [inversed_map] up and the result up in [mapp] gives [i] back, and the
    keys of [inversed_map] are exactly 0, 1, ..., n-1 for n tokens. *)
Theorem mapp_inversed_map_inverse content ks :
  comprehension int (split newline content) = Ok ks ->
  NoDup ks ->
  exists m,
    mapp content = Ok m /\
    (forall movie_id, In movie_id (keys m) ->
       (i <- getitem m movie_id ;; getitem (inversed_map m) i) = Ok movie_id) /\
    (forall i, In i (keys (inversed_map m)) ->
       (movie_id <- getitem (inversed_map m) i ;; getitem m movie_id) = Ok i) /\
    keys (inversed_map m) = indices 0 (length (split newline content)).
Proof.
  intros Hparse Hnd. exists (enumerated ks).
  assert (Hinv : forall i k, get i (inversed_map (enumerated ks)) = Some k <->
                             get k (enumerated ks) = Some i).
  { intros i k. apply inversed_map_get.
    - apply enumerated_keys_nodup.
    - apply enumerated_injective. }
  split; [now apply mapp_ok|]. split; [|split].
  - intros movie_id Hin. apply in_keys_get in Hin as [i Hget].
    unfold getitem at 1. rewrite Hget. simpl.
    apply Hinv in Hget. unfold getitem. now rewrite Hget.
  - intros i Hin. apply in_keys_get in Hin as [k Hget].
    unfold getitem at 1. rewrite Hget. simpl.
    apply Hinv in Hget. unfold getitem. now rewrite Hget.
  - rewrite (inversed_map_enumerated_nodup _ Hnd).
    unfold keys. rewrite map_fst_combine by now rewrite length_indices.
    now rewrite (comprehension_length _ _ _ Hparse).
Qed.

(** C9: building [mapp] applies [int] to every piece of the file content
    split at newlines, so it raises ValueError for the empty file, for a file
    that ends with a newline, and for a file with a line [int] rejects; and
    when two lines read as the same integer, [mapp] sends it to a later
    position, has fewer entries than the file has lines, and no key of it
    keeps the position of the earlier occurrence. *)
Theorem mapp_rejects_and_collapses :
  mapp "" = Raise ValueError /\
  (forall s, mapp (s ++ String newline "") = Raise ValueError) /\
  (forall content tok,
     In tok (split newline content) -> int tok = Raise ValueError ->
     mapp content = Raise ValueError) /\
  (forall content ks i j k,
     comprehension int (split newline content) = Ok ks ->
     (i < j)%nat -> nth_error ks i = Some k -> nth_error ks j = Some k ->
     exists m p,
       mapp content = Ok m /\
       get k m = Some (Z.of_nat p) /\ (j <= p)%nat /\ nth_error ks p = Some k /\
       (length m < length (split newline content))%nat /\
       forall k', get k' m <> Some (Z.of_nat i)).
Proof.
  assert (Hline : forall content tok,
            In tok (split newline content) -> int tok = Raise ValueError ->
            mapp content = Raise ValueError).
  { intros content tok Hin Htok. unfold mapp, enumerate.
    now apply mapp_comprehension_raises with (tok := tok). }
  split; [reflexivity|]. split; [|split; [exact Hline|]].
  - intros s. apply (Hline _ ""%string); [|reflexivity].
    rewrite split_trailing_separator. apply in_or_app. right. now left.
  - intros content ks i j k Hparse Hij Hi Hj.
    destruct (enumerated_get_some ks k) as [v Hget]; [eauto using nth_error_In|].
    destruct (enumerated_get _ _ _ Hget) as (p & -> & Hp & Hlast).
    assert (Hjp : (j <= p)%nat).
    { destruct (Nat.le_gt_cases j p) as [|Hlt]; [assumption|].
      now apply Hlast in Hlt. }
    exists (enumerated ks), p.
    split; [now apply mapp_ok|]. repeat (split; [assumption|]). split.
    + rewrite <- (comprehension_length _ _ _ Hparse).
      destruct (Nat.le_gt_cases (length ks) (length (enumerated ks))) as [Hle|];
        [exfalso | assumption].
      assert (Hnd : NoDup ks).
      { apply NoDup_incl_NoDup with (l := keys (enumerated ks)).
        - apply enumerated_keys_nodup.
        - unfold keys. now rewrite length_map.
        - apply enumerated_keys_incl. }
      rewrite NoDup_nth_error in Hnd.
      assert (i = j); [|lia].
      apply Hnd; [|congruence].
      apply nth_error_Some. congruence.
    + intros k' Hk'.
      apply enumerated_get in Hk' as (q & Heq & Hq & Hqlast).
      apply Nat2Z.inj in Heq. subst q.
      assert (k' = k) by congruence. subst k'.
      now apply (Hqlast j).
Qed.

End MappingClaims.

(** * The helpers of the visualisation cell *)

Section Helpers.

Import Visualize.

Context {Query Dist : Type}.

Implicit Types (movies : list movie) (out : list (DataFrame Dist)).

Lemma getitem_ok_iff (d : dict Z) i v : getitem d i = Ok v <-> get i d = Some v.
Proof.
  unfold getitem. destruct (get i d); split; congruence.
Qed.

Lemma getitem_raises (d : dict Z) i e :
  getitem d i = Raise e -> e = KeyError /\ get i d = None.
Proof.
  unfold getitem. destruct (get i d); [discriminate|].
  intros H. injection H as <-. now split.
Qed.

Lemma column_where_unlisted movies movie_id column :
  ~ listed movies movie_id -> column_where movies movie_id column = [].
Proof.
  unfold listed, column_where.
  induction movies as [|m rest IH]; simpl; intros Hnot; [reflexivity|].
  destruct (Z.eqb_spec (movieId m) movie_id) as [Heq|_]; [tauto|].
  apply IH. tauto.
Qed.

(** For a listed movie id every column yields the cell of the first row
    with that id. *)
Lemma column_where_listed movies movie_id :
  listed movies movie_id ->
  exists m, find (fun m => movieId m =? movie_id) movies = Some m /\
            forall column, item0 (column_where movies movie_id column) = Ok (column m).
Proof.
  unfold listed, column_where.
  induction movies as [|m rest IH]; simpl; intros Hin; [contradiction|].
  destruct (Z.eqb_spec (movieId m) movie_id) as [Heq|Hne].
  - exists m. now split.
  - apply IH. destruct Hin; [contradiction | assumption].
Qed.

Lemma listed_dec movies movie_id :
  {listed movies movie_id} + {~ listed movies movie_id}.
Proof. apply in_dec, Z.eq_dec. Qed.

Lemma results_row_listed movies (r : Z * Dist) :
  listed movies (fst r) ->
  exists m, find (fun m => movieId m =? fst r) movies = Some m /\
            results_row movies r =
            Ok [Text (genres m); Text (title m); Number (snd r)].
Proof.
  destruct r as [movie_id distance]. simpl. intros Hin.
  destruct (column_where_listed _ _ Hin) as (m & Hfind & Hcol).
  exists m. split; [assumption|]. now rewrite !Hcol.
Qed.

Lemma results_row_unlisted movies (r : Z * Dist) :
  ~ listed movies (fst r) -> results_row movies r = Raise IndexError.
Proof.
  destruct r as [movie_id distance]. simpl. intros Hnot.
  now rewrite column_where_unlisted.
Qed.


End Helpers.

Section HelperClaims.

Import Visualize.

Context {Query Dist : Type}.

Implicit Types (movies : list movie) (out : list (DataFrame Dist)).
Implicit Types (index : Index Query Dist) (inv : dict Z).

(** C10: for a movie id that does not occur in the movieId column of the
    movies table, [display_movie] raises IndexError, and
    [display_results_df] raises IndexError as soon as it reaches a pair
    whose movie id is not listed; when every movie id is listed,
    [display_results_df] displays one frame with the columns Genre, Title,
    Distance and exactly one row per input pair, in input order. *)
Theorem display_unlisted_and_listed movies :
  (forall movie_id out,
     ~ listed movies movie_id ->
     display_movie movies movie_id out = Raise IndexError) /\
  (forall pre movie_id (distance : Dist) post out,
     Forall (fun r => listed movies (fst r)) pre ->
     ~ listed movies movie_id ->
     display_results_df movies (pre ++ (movie_id, distance) :: post) out =
     Raise IndexError) /\
  (forall (results : list (Z * Dist)) out,
     Forall (fun r => listed movies (fst r)) results ->
     exists rows,
       display_results_df movies results out =
       Ok (out ++ [ {| columns := ["Genre"; "Title"; "Distance"]%string;
                       values := rows |} ]) /\
       length rows = length results /\
       Forall2 (fun r row =>
                  exists m, find (fun m => movieId m =? fst r) movies = Some m /\
                            row = [Text (genres m); Text (title m); Number (snd r)])
               results rows).
Proof.
  split; [|split].
  - intros movie_id out Hnot. unfold display_movie.
    now rewrite column_where_unlisted.
  - intros pre movie_id distance post out Hpre Hnot. unfold display_results_df.
    rewrite (comprehension_first_raise _ pre (movie_id, distance) post IndexError).
    + reflexivity.
    + eapply Forall_impl; [|exact Hpre].
      intros r Hr. destruct (results_row_listed movies r Hr) as (m & _ & ->). eauto.
    + now apply results_row_unlisted.
  - intros results out Hall. unfold display_results_df.
    destruct (comprehension_total (results_row movies) results) as [rows Hrows].
    { eapply Forall_impl; [|exact Hall].
      intros r Hr. destruct (results_row_listed movies r Hr) as (m & _ & ->). eauto. }
    exists rows. rewrite Hrows. simpl. split; [reflexivity|].
    split; [now apply comprehension_length in Hrows|].
    apply comprehension_forall2 in Hrows.
    clear out. induction Hrows as [|r row rest rows' Hrow _ IH]; [constructor|].
    inversion Hall as [|? ? Hr Hrest]; subst.
    constructor; [|now apply IH].
    destruct (results_row_listed movies r Hr) as (m & Hfind & Hok).
    exists m. split; [assumption | congruence].
Qed.

(** C1, as the code has it: whenever [index.search], called once on the
    batch holding the one query, returns matrices whose first rows hold
    [ksearch] entries each, [knn_query] returns
    [list(zip(product_ids, distances))] with the labels mapped through
    [inversed_map], a list of exactly [ksearch] pairs, provided every label
    is a key of [inversed_map]; when some label is not a key, it raises
    KeyError. *)
Theorem knn_query_delegates inv index query ksearch ds D' ls I' :
  search index (expand_dims0 query) ksearch = inr (ds :: D', ls :: I') ->
  length ds = Z.to_nat ksearch ->
  length ls = Z.to_nat ksearch ->
  (Forall (fun i => In i (keys inv)) ls ->
   exists product_ids,
     Forall2 (fun i movie_id => get i inv = Some movie_id) ls product_ids /\
     knn_query inv index query ksearch = Ok (zip product_ids ds) /\
     length (zip product_ids ds) = Z.to_nat ksearch) /\
  (~ Forall (fun i => In i (keys inv)) ls ->
   knn_query inv index query ksearch = Raise KeyError).
Proof.
  intros Hsearch Hds Hls. unfold knn_query. rewrite Hsearch. simpl.
  destruct (comprehension (fun i => getitem inv i) ls) as [ids|e] eqn:Hids.
  - pose proof (comprehension_length _ _ _ Hids) as Hlen.
    apply comprehension_forall2 in Hids.
    assert (Hget : Forall2 (fun i movie_id => get i inv = Some movie_id) ls ids).
    { eapply Forall2_impl; [|exact Hids]. intros i v. apply getitem_ok_iff. }
    split.
    + intros _. exists ids. split; [assumption|]. split; [reflexivity|].
      unfold zip. rewrite length_combine. lia.
    + intros Hnot. exfalso. apply Hnot. clear -Hget.
      induction Hget as [|i v ls' ids' Hi _ IH]; constructor; [|assumption].
      eauto using get_in_keys.
  - apply comprehension_raise_inv in Hids as (i & Hin & Hi).
    apply getitem_raises in Hi as [-> Hnone].
    split; [|reflexivity].
    intros Hall. exfalso. rewrite Forall_forall in Hall.
    apply get_none_iff in Hnone. now apply Hnone, Hall.
Qed.


End HelperClaims.

(** * The pipeline *)

Section Cells.

Import Notebook.

Context `{F : Framework}.

Local Open Scope cell_scope.

Lemma mbind_eq {A B : Type} (c : M A) (k : A -> M B) s :
  mbind c k s =
  match c s with
  | (Ok a, s') => k a s'
  | (Raise e, s') => (Raise e, s')
  end.
Proof. reflexivity. Qed.

Lemma Path_mkdir_eq path w log :
  Path_mkdir path (w, log) =
  match mkdir path w with
  | (w', None) => (Ok tt, (w', log ++ [Mkdir path]))
  | (w', Some e) => (Raise (External e), (w', log ++ [Mkdir path]))
  end.
Proof.
  unfold Path_mkdir, mbind, emit, writing. simpl.
  now destruct (mkdir path w) as [w' [e|]].
Qed.

Lemma Job_run_eq job w log :
  Job_run job (w, log) =
  match run job w with
  | (w', None) => (Ok tt, (w', log ++ [Started job; Finished job]))
  | (w', Some e) => (Raise (External e), (w', log ++ [Started job]))
  end.
Proof.
  unfold Job_run, mbind, emit, writing. simpl.
  destruct (run job w) as [w' [e|]]; simpl; [reflexivity|].
  now rewrite <- app_assoc.
Qed.

Lemma cell_train_eq w log :
  cell_train (w, log) =
  match vocab_size path_mapping w with
  | inr n =>
      (Ok (Trainer n n),
       (w, log ++ [VocabSize path_mapping; VocabSize path_mapping]))
  | inl e => (Raise (External e), (w, log ++ [VocabSize path_mapping]))
  end.
Proof.
  unfold cell_train, dpr_vocab_size, mbind, emit, reading, ret. simpl.
  destruct (vocab_size path_mapping w) as [e|n]; simpl; [reflexivity|].
  now rewrite <- app_assoc.
Qed.

End Cells.

Section Pipeline.

Import Notebook Stages.

Context `{F : Framework}.

Local Open Scope cell_scope.
Local Open Scope string_scope.
Local Open Scope list_scope.

(** One step of the notebook: expose the next call into the framework. *)
Ltac step :=
  repeat (progress (cbv beta iota; unfold ret;
                    cbn [run_jobs jobs app map evaluate fst snd];
                    rewrite ?mbind_eq));
  first [rewrite Path_mkdir_eq | rewrite Job_run_eq | rewrite cell_train_eq].

(** The run ends at the failing call, with a log that the complete run
    continues. *)
Ltac stops n :=
  intros ->; exists n; eexists; split; [reflexivity|];
  split; [split; discriminate | discriminate].

(** What a run of the notebook from the world [w] amounts to: its log is a
    beginning of the complete run, all of it exactly when the run ends
    normally, and then every stage ran in the world the stage before left. *)
Lemma notebook_outcome (w : World) :
  exists n rest,
    complete_run n n = snd (snd (notebook (w, []))) ++ rest /\
    (fst (notebook (w, [])) = Ok tt <-> rest = []) /\
    (fst (notebook (w, [])) = Ok tt ->
       vocab_size path_mapping (world_after_build w) = inr n /\
       fst (snd (notebook (w, []))) = world_after_stages n w).
Proof.
  remember (notebook (w, [])) as out eqn:Hout. revert Hout.
  unfold notebook, cell_paths, cell_build, cell_predict, cell_evaluate,
    cell_pipeline, Pipeline_run, world_after_stages, world_after_build,
    after, after_mkdir.
  step. destruct (mkdir path_root w) as [w1 [e|]] eqn:E1; [stops 0%Z|].
  step. destruct (mkdir path_model w1) as [w2 [e|]] eqn:E2; [stops 0%Z|].
  step. destruct (mkdir path_data w2) as [w3 [e|]] eqn:E3; [stops 0%Z|].
  step. destruct (run build w3) as [w4 [e|]] eqn:E4; [stops 0%Z|].
  step. destruct (vocab_size path_mapping w4) as [e|n] eqn:Ev; [stops 0%Z|].
  step. destruct (run (Trainer n n) w4) as [w5 [e|]] eqn:E5; [stops n|].
  step. destruct (run predict w5) as [w6 [e|]] eqn:E6; [stops n|].
  step. destruct (run (Evaluate 10) w6) as [w7 [e|]] eqn:E7; [stops n|].
  step. destruct (run (Evaluate 20) w7) as [w8 [e|]] eqn:E8; [stops n|].
  step. destruct (run (Evaluate 50) w8) as [w9 [e|]] eqn:E9; [stops n|].
  intros ->. exists n, []. split; [reflexivity|].
  split; [split; reflexivity|]. intros _. split; [reflexivity|].
  cbn [fst snd].
  rewrite E5; cbn [fst]. rewrite E6; cbn [fst]. rewrite E7; cbn [fst].
  rewrite E8; cbn [fst]. now rewrite E9.
Qed.

(** The notebook is the chain of its framework calls. *)
Lemma notebook_stage_by_stage (w : World) : notebook (w, []) = stage_by_stage w.
Proof.
  unfold notebook, cell_paths, cell_build, cell_predict, cell_evaluate,
    cell_pipeline, Pipeline_run, stage_by_stage, stopped.
  step. destruct (mkdir path_root w) as [w1 [e|]]; [reflexivity|].
  step. destruct (mkdir path_model w1) as [w2 [e|]]; [reflexivity|].
  step. destruct (mkdir path_data w2) as [w3 [e|]]; [reflexivity|].
  step. destruct (run build w3) as [w4 [e|]]; [reflexivity|].
  step. destruct (vocab_size path_mapping w4) as [e|n]; [reflexivity|].
  step. destruct (run (Trainer n n) w4) as [w5 [e|]]; [reflexivity|].
  step. destruct (run predict w5) as [w6 [e|]]; [reflexivity|].
  step. destruct (run (Evaluate 10) w6) as [w7 [e|]]; [reflexivity|].
  step. destruct (run (Evaluate 20) w7) as [w8 [e|]]; [reflexivity|].
  step. destruct (run (Evaluate 50) w8) as [w9 [e|]]; reflexivity.
Qed.

(** When every framework call succeeds, the run goes through all stages. *)
Lemma notebook_completes (w : World) (n : Z) :
  calls_succeed w n ->
  notebook (w, []) = (Ok tt, (world_after_stages n w, complete_run n n)).
Proof.
  rewrite notebook_stage_by_stage.
  unfold calls_succeed, stage_by_stage, world_after_stages, world_after_build,
    after, after_mkdir.
  intros (H1 & H2 & H3 & H4 & Hv & H5 & H6 & H7 & H8 & H9).
  destruct (mkdir path_root w) as [w1 o1]; cbn [fst snd] in *; subst o1.
  destruct (mkdir path_model w1) as [w2 o2]; cbn [fst snd] in *; subst o2.
  destruct (mkdir path_data w2) as [w3 o3]; cbn [fst snd] in *; subst o3.
  destruct (run build w3) as [w4 o4]; cbn [fst snd] in *; subst o4.
  rewrite Hv.
  destruct (run (Trainer n n) w4) as [w5 o5]; cbn [fst snd] in *; subst o5.
  destruct (run predict w5) as [w6 o6]; cbn [fst snd] in *; subst o6.
  destruct (run (Evaluate 10) w6) as [w7 o7]; cbn [fst snd] in *; subst o7.
  destruct (run (Evaluate 20) w7) as [w8 o8]; cbn [fst snd] in *; subst o8.
  destruct (run (Evaluate 50) w8) as [w9 o9]; cbn [fst snd] in *; subst o9.
  reflexivity.
Qed.

(** C2: the stages run strictly one after the other, in the order data
    preparation, training, prediction, evaluation.  A run is the chain of
    its framework calls: the three directories, [build.run()], the two
    measurements of the mapping file, then the pipeline's training job,
    prediction job and three evaluation jobs, each call made in the world
    the call before it left and only once that call has returned; the first
    call that fails ends the run with its exception after the events so
    far.  When every call succeeds the run goes through all stages and ends
    normally with the complete run as its log.  The events of any run are
    a beginning of the complete run, all of it exactly when the run ends
    normally. *)
Theorem notebook_stages_in_order (w : World) :
  notebook (w, []) = stage_by_stage w /\
  (forall n,
     calls_succeed w n ->
     notebook (w, []) = (Ok tt, (world_after_stages n w, complete_run n n))) /\
  exists n rest,
    complete_run n n = snd (snd (notebook (w, []))) ++ rest /\
    complete_run n n =
      [ Mkdir path_root; Mkdir path_model; Mkdir path_data;
        Started build; Finished build;
        VocabSize path_mapping; VocabSize path_mapping;
        Started (Trainer n n); Finished (Trainer n n);
        Started predict; Finished predict;
        Started (Evaluate 10); Finished (Evaluate 10);
        Started (Evaluate 20); Finished (Evaluate 20);
        Started (Evaluate 50); Finished (Evaluate 50) ] /\
    (fst (notebook (w, [])) = Ok tt <-> rest = []) /\
    (fst (notebook (w, [])) = Ok tt ->
       vocab_size path_mapping (world_after_build w) = inr n /\
       fst (snd (notebook (w, []))) = world_after_stages n w).
Proof.
  split; [apply notebook_stage_by_stage|].
  split; [intros n; apply notebook_completes|].
  destruct (notebook_outcome w) as (n & rest & Hlog & Hiff & Hworld).
  exists n, rest. split; [exact Hlog|]. split; [reflexivity|].
  split; assumption.
Qed.

(** C3: the persisted artifacts are handed from stage to stage by path.  The
    mapping path given to BuildRecords is the path every [dpr.vocab.size]
    call of the training cell reads; the predictions path given to Predict
    is the one given to every Evaluate job; every Evaluate job reads its
    embeddings and biases from [path_variables + "/embeddings"] and
    [path_variables + "/biases"], where [path_variables] is the directory
    the SaveVariables exporter of the Trainer writes the variables biases
    and embeddings into; and every such path starts with
    [path_root = "average"]. *)
Theorem paths_are_handed_over :
  kwarg "path_mapping" build = Some (VStr path_mapping) /\
  (forall w log, exists r new,
     cell_train (w, log) = (r, (w, log ++ new)) /\
     new <> [] /\ Forall (eq (VocabSize path_mapping)) new) /\
  kwarg "path_predictions" predict = Some (VStr path_predictions) /\
  (forall job, In job evaluate ->
     kwarg "path_predictions" job = kwarg "path_predictions" predict) /\
  (forall n1 n2, exists before_it after_it,
     kwarg "exporters" (Trainer n1 n2) =
     Some (VList (before_it ++
                  VObj "dpr.exporters.SaveVariables" []
                    [ ("path_variables", VStr path_variables);
                      ("variable_names", VList [VStr "biases"; VStr "embeddings"]) ]
                  :: after_it))) /\
  (forall job, In job evaluate ->
     kwarg "path_embeddings" job = Some (VStr (path_variables ++ "/embeddings")%string) /\
     kwarg "path_biases" job = Some (VStr (path_variables ++ "/biases")%string)) /\
  path_root = "average" /\
  Forall (fun path => prefix path_root path = true)
    [ path_mapping; path_predictions; path_variables;
      (path_variables ++ "/embeddings")%string;
      (path_variables ++ "/biases")%string;
      path_model; path_data; path_saved_model;
      path_train; path_eval; path_test ].
Proof.
  assert (Hevaluate : forall job, In job evaluate ->
            job = Evaluate 10 \/ job = Evaluate 20 \/ job = Evaluate 50).
  { intros job [<-|[<-|[<-|[]]]]; auto. }
  split; [reflexivity|]. split.
  { intros w log. rewrite cell_train_eq.
    destruct (vocab_size path_mapping w) as [e|n]; do 2 eexists;
      (split; [reflexivity|]); (split; [discriminate|]);
      repeat constructor. }
  split; [reflexivity|]. split.
  { intros job Hin. destruct (Hevaluate job Hin) as [->|[->| ->]]; reflexivity. }
  split.
  { intros n1 n2.
    exists [VObj "dpr.exporters.BestCheckpoint" []
              [("metric", VStr "triplet_precision"); ("mode", VStr "increase")]].
    eexists. reflexivity. }
  split.
  { intros job Hin.
    destruct (Hevaluate job Hin) as [->|[->| ->]]; split; reflexivity. }
  split; [reflexivity|].
  repeat constructor.
Qed.

(** In any run the Evaluate jobs started, and the metrics printed, are a
    beginning of those of the three jobs in their order. *)
Lemma evaluation_never_repeats (w : World) :
  exists jobs_left metrics_left,
    map Started evaluate =
      filter is_started_Evaluate (snd (snd (notebook (w, [])))) ++ jobs_left /\
    metrics_at 10 ++ metrics_at 20 ++ metrics_at 50 =
      printed_metrics (snd (snd (notebook (w, [])))) ++ metrics_left.
Proof.
  rewrite notebook_stage_by_stage. unfold stage_by_stage, stopped.
  destruct (mkdir path_root w) as [w1 [e|]];
    [do 2 eexists; split; reflexivity|].
  destruct (mkdir path_model w1) as [w2 [e|]];
    [do 2 eexists; split; reflexivity|].
  destruct (mkdir path_data w2) as [w3 [e|]];
    [do 2 eexists; split; reflexivity|].
  destruct (run build w3) as [w4 [e|]];
    [do 2 eexists; split; reflexivity|].
  destruct (vocab_size path_mapping w4) as [e|n];
    [do 2 eexists; split; reflexivity|].
  destruct (run (Trainer n n) w4) as [w5 [e|]];
    [do 2 eexists; split; reflexivity|].
  destruct (run predict w5) as [w6 [e|]];
    [do 2 eexists; split; reflexivity|].
  destruct (run (Evaluate 10) w6) as [w7 [e|]];
    [do 2 eexists; split; reflexivity|].
  destruct (run (Evaluate 20) w7) as [w8 [e|]];
    [do 2 eexists; split; reflexivity|].
  destruct (run (Evaluate 50) w8) as [w9 [e|]];
    [do 2 eexists; split; reflexivity|].
  exists [], []. split; reflexivity.
Qed.

(** C4: the evaluation stage is exactly three Evaluate jobs, one for each k
    of [10, 20, 50] in that order; the three read the same predictions,
    embeddings and biases paths and agree on every argument but k.
    Consequently, when every framework call of the run succeeds, the
    Evaluate jobs started are these three, once each and in that order, and
    the metrics printed are precision, recall, f1 and NDCG once for each k
    of 10, 20, 50, in that order; and in no run is an Evaluate job started
    or a metric printed twice or out of that order. *)
Theorem evaluate_three_jobs :
  evaluate = [Evaluate 10; Evaluate 20; Evaluate 50] /\
  length evaluate = 3%nat /\
  map (kwarg "k") evaluate = [Some (VInt 10); Some (VInt 20); Some (VInt 50)] /\
  (forall job, In job evaluate ->
     class_of job = "movielens.jobs.Evaluate" /\
     kwarg "path_predictions" job = Some (VStr path_predictions) /\
     kwarg "path_embeddings" job = Some (VStr (path_variables ++ "/embeddings")%string) /\
     kwarg "path_biases" job = Some (VStr (path_variables ++ "/biases")%string)) /\
  (forall job1 job2 name,
     In job1 evaluate -> In job2 evaluate -> name <> "k" ->
     kwarg name job1 = kwarg name job2) /\
  (forall w,
     fst (notebook (w, [])) = Ok tt ->
     filter is_started_Evaluate (snd (snd (notebook (w, [])))) =
     map Started evaluate) /\
  (forall w n,
     calls_succeed w n ->
     fst (notebook (w, [])) = Ok tt /\
     filter is_started_Evaluate (snd (snd (notebook (w, [])))) =
       [Started (Evaluate 10); Started (Evaluate 20); Started (Evaluate 50)] /\
     printed_metrics (snd (snd (notebook (w, [])))) =
       [ ("precision", 10); ("recall", 10); ("f1", 10); ("NDCG", 10);
         ("precision", 20); ("recall", 20); ("f1", 20); ("NDCG", 20);
         ("precision", 50); ("recall", 50); ("f1", 50); ("NDCG", 50) ]) /\
  (forall w, exists jobs_left metrics_left,
     [Started (Evaluate 10); Started (Evaluate 20); Started (Evaluate 50)] =
       filter is_started_Evaluate (snd (snd (notebook (w, [])))) ++ jobs_left /\
     [ ("precision", 10); ("recall", 10); ("f1", 10); ("NDCG", 10);
       ("precision", 20); ("recall", 20); ("f1", 20); ("NDCG", 20);
       ("precision", 50); ("recall", 50); ("f1", 50); ("NDCG", 50) ] =
       printed_metrics (snd (snd (notebook (w, [])))) ++ metrics_left).
Proof.
  assert (Hevaluate : forall job, In job evaluate -> exists k, job = Evaluate k).
  { intros job [<-|[<-|[<-|[]]]]; eauto. }
  split; [reflexivity|]. split; [reflexivity|]. split; [reflexivity|].
  split; [|split; [|split; [|split]]].
  - intros job Hin. destruct (Hevaluate job Hin) as [k ->].
    repeat split; reflexivity.
  - intros job1 job2 name Hin1 Hin2 Hname.
    destruct (Hevaluate job1 Hin1) as [k1 ->].
    destruct (Hevaluate job2 Hin2) as [k2 ->].
    unfold Evaluate, kwarg. cbn [lookup].
    repeat (destruct (String.eqb name _); [reflexivity|]).
    destruct (String.eqb_spec name "k"); [contradiction | reflexivity].
  - intros w Hok.
    destruct (notebook_outcome w) as (n & rest & Hlog & Hiff & _).
    apply Hiff in Hok. subst rest. rewrite app_nil_r in Hlog.
    rewrite <- Hlog. reflexivity.
  - intros w n Hcalls. rewrite (notebook_completes w n Hcalls).
    repeat split; reflexivity.
  - intros w. exact (evaluation_never_repeats w).
Qed.

(** C6, as the code has it: the cells that build BuildRecords, Predict and
    the Evaluate jobs only capture their parameters: they end normally and
    leave the world and the log as they were.  The training cell calls
    [dpr.vocab.size(path_mapping)] for [pred_fn] and again for [loss_fn]
    before the Trainer exists: it leaves the world as it was and starts no
    job, returns the Trainer holding the measured size when the mapping file
    can be read, and ends with the library's exception after the first read
    when it cannot. *)
Theorem job_construction_effects :
  (forall s, cell_build s = (Ok build, s)) /\
  (forall s, cell_predict s = (Ok predict, s)) /\
  (forall s, cell_evaluate s = (Ok evaluate, s)) /\
  (forall w log,
     cell_train (w, log) =
     match vocab_size path_mapping w with
     | inr n =>
         (Ok (Trainer n n),
          (w, log ++ [VocabSize path_mapping; VocabSize path_mapping]))
     | inl e => (Raise (External e), (w, log ++ [VocabSize path_mapping]))
     end).
Proof.
  repeat split; try reflexivity.
  intros w log. apply cell_train_eq.
Qed.

End Pipeline.

(** * Concrete runs *)

Section Runs.

Import Visualize Notebook Demo.

Local Open Scope string_scope.
Local Open Scope list_scope.
Local Open Scope result_scope.

Example split_empty : split newline "" = [""].
Proof. reflexivity. Qed.

Example split_mapping_trailing :
  split newline mapping_trailing = ["260"; "1196"; ""].
Proof. reflexivity. Qed.

Example int_plain : int "1193" = Ok 1193.
Proof. reflexivity. Qed.

Example int_padded_signed : int " -0_42 " = Ok (-42).
Proof. reflexivity. Qed.

Example int_empty : int "" = Raise ValueError.
Proof. reflexivity. Qed.

Example int_double_underscore : int "1__0" = Raise ValueError.
Proof. reflexivity. Qed.

Example mapp_mapping3 : mapp mapping3 = Ok [(260, 0); (1196, 1); (1210, 2)].
Proof. reflexivity. Qed.

Example inversed_map_mapping3 :
  inversed_map [(260, 0); (1196, 1); (1210, 2)] = [(0, 260); (1, 1196); (2, 1210)].
Proof. reflexivity. Qed.

Example mapp_mapping_repeated : mapp mapping_repeated = Ok [(260, 2); (1196, 1)].
Proof. reflexivity. Qed.

Example knn_query_small_index :
  knn_query [(0, 260); (1, 1196); (2, 1210)] small_index [1; 0] 3 =
  Ok [(1210, 30); (260, 20); (1196, 10)].
Proof. reflexivity. Qed.

Example knn_query_broken_index :
  knn_query [(0, 260)] broken_index [1; 0] 3 =
  Raise (External "Error in faiss search").
Proof. reflexivity. Qed.

Example notebook_on_files :
  notebook (F := files) ([], []) =
  (Ok tt,
   ([path_mapping; path_data; path_model; path_root],
    complete_run (F := files) 3 3)).
Proof. reflexivity. Qed.

(** C1 as stated fails: the index returns one row of [ksearch] distances and
    one row of [ksearch] labels, as a faiss index does, and [knn_query]
    returns no list of pairs, because the label -1 of a missing neighbour is
    not a key of [inversed_map]. *)
Lemma knn_query_empty_index_raises :
  mapp mapping3 = Ok (enumerated [260; 1196; 1210]) /\
  search empty_index (expand_dims0 [1; 0]) 2 = inr ([[0; 0]], [[-1; -1]]) /\
  knn_query (inversed_map (enumerated [260; 1196; 1210])) empty_index [1; 0] 2 =
  Raise KeyError /\
  ~ (exists pairs,
       knn_query (inversed_map (enumerated [260; 1196; 1210])) empty_index
         [1; 0] 2 = Ok pairs /\ length pairs = 2%nat).
Proof.
  split; [reflexivity|]. split; [reflexivity|]. split; [reflexivity|].
  intros (pairs & H & _). discriminate H.
Qed.

Lemma knn_query_delegates_witness :
  (Forall (fun i => In i (keys (inversed_map (enumerated [260; 1196; 1210]))))
     [2; 0] ->
   exists product_ids,
     Forall2 (fun i movie_id =>
                get i (inversed_map (enumerated [260; 1196; 1210])) = Some movie_id)
             [2; 0] product_ids /\
     knn_query (inversed_map (enumerated [260; 1196; 1210])) small_index [1; 0] 2 =
     Ok (zip product_ids [30; 20]) /\
     length (zip product_ids [30; 20]) = Z.to_nat 2) /\
  (~ Forall (fun i => In i (keys (inversed_map (enumerated [260; 1196; 1210]))))
       [2; 0] ->
   knn_query (inversed_map (enumerated [260; 1196; 1210])) small_index [1; 0] 2 =
   Raise KeyError).
Proof.
  apply (knn_query_delegates (inversed_map (enumerated [260; 1196; 1210]))
           small_index [1; 0] 2 [30; 20] [] [2; 0] []); reflexivity.
Defined.



Lemma mapp_inversed_map_inverse_witness :
  exists m,
    mapp mapping3 = Ok m /\
    (forall movie_id, In movie_id (keys m) ->
       (i <- getitem m movie_id ;; getitem (inversed_map m) i) = Ok movie_id) /\
    (forall i, In i (keys (inversed_map m)) ->
       (movie_id <- getitem (inversed_map m) i ;; getitem m movie_id) = Ok i) /\
    keys (inversed_map m) = indices 0 (length (split newline mapping3)).
Proof.
  apply (mapp_inversed_map_inverse mapping3 [260; 1196; 1210]).
  - reflexivity.
  - repeat constructor; simpl; lia.
Defined.

Lemma mapp_rejects_and_collapses_witness :
  mapp mapping_trailing = Raise ValueError /\
  mapp (line "260" "12a") = Raise ValueError /\
  exists m p,
    mapp mapping_repeated = Ok m /\
    get 260 m = Some (Z.of_nat p) /\ (2 <= p)%nat /\
    nth_error [260; 1196; 260] p = Some 260 /\
    (length m < length (split newline mapping_repeated))%nat /\
    forall k', get k' m <> Some (Z.of_nat 0).
Proof.
  destruct mapp_rejects_and_collapses as (_ & Htrailing & Hline & Hrepeated).
  split; [exact (Htrailing (line "260" "1196"))|]. split.
  - apply (Hline (line "260" "12a") "12a"); [right; left|]; reflexivity.
  - apply (Hrepeated mapping_repeated [260; 1196; 260] 0%nat 2%nat 260);
      [reflexivity | lia | reflexivity | reflexivity].
Defined.

Lemma display_unlisted_and_listed_witness :
  display_movie (Dist := Z) movies3 999 [] = Raise IndexError /\
  display_results_df movies3 ([(260, 30)] ++ (999, 20) :: [(1210, 10)]) [] =
  Raise IndexError /\
  exists rows,
    display_results_df movies3 [(1210, 30); (260, 20)] [] =
    Ok ([] ++ [ {| columns := ["Genre"; "Title"; "Distance"]; values := rows |} ]) /\
    length rows = length [(1210, 30); (260, 20)] /\
    Forall2 (fun r row =>
               exists m, find (fun m => (movieId m =? fst r)%Z) movies3 = Some m /\
                         row = [Text (genres m); Text (title m); Number (snd r)])
            [(1210, 30); (260, 20)] rows.
Proof.
  assert (Hlisted : forall id, In id [260; 1196; 1210] -> listed movies3 id)
    by (intros id H; exact H).
  assert (Hunlisted : ~ listed movies3 999).
  { unfold listed. simpl. lia. }
  destruct (@display_unlisted_and_listed Z movies3) as (Hmovie & Hstop & Hall).
  split; [exact (Hmovie 999 [] Hunlisted)|]. split.
  - apply (Hstop [(260, 30)] 999 20 [(1210, 10)] []); [|exact Hunlisted].
    repeat constructor.
  - apply (Hall [(1210, 30); (260, 20)] []).
    repeat constructor; apply Hlisted; simpl; auto.
Defined.

(** C6 as stated fails: on a world where the mapping file exists the
    training cell reads it twice, and where it does not exist the cell ends
    with the library's exception; so building the Trainer is not parameter
    capture alone. *)
Lemma train_cell_reads_mapping_file :
  cell_train (F := files) ([path_mapping], []) =
  (Ok (Trainer 3 3),
   ([path_mapping], [VocabSize path_mapping; VocabSize path_mapping])) /\
  cell_train (F := files) ([], []) =
  (Raise (External "FileNotFoundError"), ([], [VocabSize path_mapping])) /\
  ~ (forall s, exists job, cell_train (F := files) s = (Ok job, s)).
Proof.
  split; [reflexivity|]. split; [reflexivity|].
  intros H. destruct (H ([], [])) as [job Hjob]. discriminate Hjob.
Qed.

End Runs.

(** * Further properties of the built-ins *)

Section SplitJoin.

Lemma split_cons_sep sep rest :
  split sep (String sep rest) = EmptyString :: split sep rest.
Proof. simpl. now rewrite Ascii.eqb_refl. Qed.

Lemma split_without_sep sep piece :
  occurs sep piece = false -> split sep piece = [piece].
Proof.
  induction piece as [|c rest IH]; simpl; [reflexivity|].
  intros H. apply orb_false_iff in H as [Hc Hrest].
  rewrite Hc, (IH Hrest). reflexivity.
Qed.

Lemma split_piece_then_sep sep piece rest :
  occurs sep piece = false ->
  split sep (piece ++ String sep rest) = piece :: split sep rest.
Proof.
  induction piece as [|c piece' IH]; simpl.
  - intros _. now rewrite Ascii.eqb_refl.
  - intros H. apply orb_false_iff in H as [Hc Hrest].
    rewrite Hc, (IH Hrest). reflexivity.
Qed.

(** X1: the pieces [split] cuts a text into hold no separator, there is one
    more of them than the text has separators, and joining them with the
    separator gives the text back. *)
Theorem join_split sep s :
  join sep (split sep s) = s /\
  Forall (fun piece => occurs sep piece = false) (split sep s) /\
  length (split sep s) = S (length (filter (fun c => Ascii.eqb c sep)
                                          (list_ascii_of_string s))).
Proof.
  induction s as [|c rest (IHjoin & IHfree & IHlen)]; simpl.
  - repeat split. repeat constructor.
  - destruct (Ascii.eqb_spec c sep) as [->|Hne].
    + split; [|split].
      * simpl. destruct (split sep rest) eqn:E;
          [now apply split_nonempty in E|].
        now rewrite IHjoin.
      * now constructor.
      * simpl. now rewrite IHlen.
    + destruct (split sep rest) as [|tok toks] eqn:E;
        [now apply split_nonempty in E|].
      split; [|split].
      * simpl in *. destruct toks; simpl; now rewrite <- IHjoin.
      * inversion IHfree as [|? ? Htok Htoks]; subst.
        constructor; [|assumption]. simpl.
        apply orb_false_iff. split; [|assumption].
        now apply Ascii.eqb_neq.
      * exact IHlen.
Qed.

(** X2: pieces that hold no separator, at least one of them, are what [split]
    finds in their join. *)
Theorem split_join sep pieces :
  pieces <> [] ->
  Forall (fun piece => occurs sep piece = false) pieces ->
  split sep (join sep pieces) = pieces.
Proof.
  intros Hne Hfree.
  induction Hfree as [|piece rest Hpiece Hrest IH]; [contradiction|].
  destruct rest as [|piece' rest'].
  - simpl. now apply split_without_sep.
  - change (join sep (piece :: piece' :: rest'))
      with (piece ++ String sep (join sep (piece' :: rest')))%string.
    rewrite split_piece_then_sep by assumption.
    rewrite IH; [reflexivity | discriminate].
Qed.

End SplitJoin.

Section IntSpace.

Lemma lstrip_app_space l c :
  is_space c = true ->
  lstrip (l ++ [c]) = match lstrip l with [] => [] | _ => lstrip l ++ [c] end.
Proof.
  intros Hc. induction l as [|x rest IH]; simpl.
  - now rewrite Hc.
  - destruct (is_space x); [exact IH | reflexivity].
Qed.

Lemma strip_cons_space c l : is_space c = true -> strip (c :: l) = strip l.
Proof. intros Hc. unfold strip. simpl. now rewrite Hc. Qed.

Lemma strip_app_space c l : is_space c = true -> strip (l ++ [c]) = strip l.
Proof.
  intros Hc. unfold strip. rewrite (lstrip_app_space _ _ Hc).
  destruct (lstrip l) as [|x rest] eqn:E; [reflexivity|].
  rewrite <- E. rewrite rev_app_distr. simpl. now rewrite Hc.
Qed.

Lemma list_ascii_of_string_app s t :
  list_ascii_of_string (s ++ t) = list_ascii_of_string s ++ list_ascii_of_string t.
Proof.
  induction s as [|c rest IH]; simpl; [reflexivity|]. now rewrite IH.
Qed.

(** X3: [int] reads a line the same with or without one more white-space
    character before or after it. *)
Theorem int_ignores_surrounding_space c s :
  is_space c = true ->
  int (String c s) = int s /\ int (s ++ String c "") = int s.
Proof.
  intros Hc. unfold int. split.
  - simpl list_ascii_of_string. now rewrite (strip_cons_space _ _ Hc).
  - rewrite list_ascii_of_string_app. simpl list_ascii_of_string.
    now rewrite (strip_app_space _ _ Hc).
Qed.

End IntSpace.

(** * Further properties of [mapp] and [inversed_map] *)

Section MappingMore.

Import Visualize.

Local Open Scope result_scope.

Lemma mapp_ok_inv content m :
  mapp content = Ok m ->
  exists ks, comprehension int (split newline content) = Ok ks /\ m = enumerated ks.
Proof.
  intros Hm.
  destruct (comprehension int (split newline content)) as [ks|e] eqn:E.
  - exists ks. split; [reflexivity|]. rewrite (mapp_ok _ _ E) in Hm.
    injection Hm as <-. reflexivity.
  - apply comprehension_raise_inv in E as (tok & Hin & Htok).
    pose proof (int_raises_only_ValueError _ _ Htok) as ->.
    unfold mapp, enumerate in Hm.
    rewrite (mapp_comprehension_raises _ _ _ _ Hin Htok) in Hm. discriminate.
Qed.

(** X4: the line that builds [mapp] ends in one of three ways: reading the
    mapping file raises and the line ends with that exception; or the file
    is read, every line of it is accepted by [int] and [mapp] is the
    dictionary of the integers read; or the file is read, some line is
    rejected and the line ends with ValueError. *)
Theorem mapp_outcome (files : string -> MappingFile.read_error + string) :
  (exists err,
     files Query.mapping_file = inl err /\
     MappingFile.mapp_of_file files = inl (MappingFile.Reading err)) \/
  (exists content ks,
     files Query.mapping_file = inr content /\
     Forall2 (fun tok k => int tok = Ok k) (split newline content) ks /\
     MappingFile.mapp_of_file files = inr (enumerated ks)) \/
  (exists content tok,
     files Query.mapping_file = inr content /\
     In tok (split newline content) /\ int tok = Raise ValueError /\
     MappingFile.mapp_of_file files = inl (MappingFile.Building ValueError)).
Proof.
  unfold MappingFile.mapp_of_file.
  destruct (files Query.mapping_file) as [err|content]; [left; eauto|].
  right.
  destruct (comprehension int (split newline content)) as [ks|e] eqn:E.
  - left. exists content, ks. split; [reflexivity|].
    split; [now apply comprehension_forall2|].
    now rewrite (mapp_ok _ _ E).
  - right. apply comprehension_raise_inv in E as (tok & Hin & Htok).
    pose proof (int_raises_only_ValueError _ _ Htok) as ->.
    exists content, tok. repeat split; try assumption.
    unfold mapp, enumerate.
    now rewrite (mapp_comprehension_raises _ _ _ _ Hin Htok).
Qed.

Lemma values_nodup (d : dict Z) :
  NoDup (keys d) ->
  (forall k1 k2 v, get k1 d = Some v -> get k2 d = Some v -> k1 = k2) ->
  NoDup (map snd d).
Proof.
  induction d as [|[k v] rest IH]; intros Hnd Hinj; simpl; [constructor|].
  inversion Hnd as [|? ? Hnotin Hnd']; subst.
  constructor.
  - intros Hin. apply in_map_iff in Hin as ([k' v'] & Hv & Hin).
    simpl in Hv. subst v'.
    assert (k = k').
    { apply (Hinj k k' v).
      - simpl. now rewrite Z.eqb_refl.
      - apply in_get_nodup; [assumption | now right]. }
    subst k'. apply Hnotin. unfold keys.
    change k with (fst (k, v)). now apply in_map.
  - apply IH; [assumption|].
    intros k1 k2 v0 H1 H2.
    apply (Hinj k1 k2 v0); apply in_get_nodup; try assumption;
      right; now apply get_some_in.
Qed.

(** X5: however the lines repeat, [inversed_map] is [mapp] with every item
    turned around, in the same order: it has as many items as [mapp], and a
    movie id is sent to a position by [mapp] exactly when [inversed_map]
    sends the position back to it. *)
Theorem inversed_map_turns_mapp_around content m :
  mapp content = Ok m ->
  inversed_map m = map swap m /\
  length (inversed_map m) = length m /\
  (forall movie_id i,
     get movie_id m = Some i <-> get i (inversed_map m) = Some movie_id).
Proof.
  intros Hm. apply mapp_ok_inv in Hm as (ks & _ & ->).
  assert (Hswap : inversed_map (enumerated ks) = map swap (enumerated ks)).
  { rewrite inversed_map_assign_all.
    rewrite assign_all_fresh; [reflexivity | | intros ? _ []].
    rewrite map_map. simpl.
    apply values_nodup; [apply enumerated_keys_nodup | apply enumerated_injective]. }
  split; [exact Hswap|]. split.
  - now rewrite Hswap, length_map.
  - intros movie_id i. symmetry. apply inversed_map_get.
    + apply enumerated_keys_nodup.
    + apply enumerated_injective.
Qed.

(** X6: the keys of [mapp] are the integers read from the lines, and [mapp]
    sends each of them to the position of a line that reads as it: a
    position from 0 to the number of lines less one, after which no line
    reads as that integer. *)
Theorem mapp_positions content m :
  mapp content = Ok m ->
  (forall movie_id,
     In movie_id (keys m) <->
     exists tok, In tok (split newline content) /\ int tok = Ok movie_id) /\
  (forall movie_id i,
     get movie_id m = Some i ->
     0 <= i < Z.of_nat (length (split newline content)) /\
     (exists tok, nth_error (split newline content) (Z.to_nat i) = Some tok /\
                  int tok = Ok movie_id) /\
     (forall j tok, (Z.to_nat i < j)%nat ->
                    nth_error (split newline content) j = Some tok ->
                    int tok <> Ok movie_id)).
Proof.
  intros Hm. apply mapp_ok_inv in Hm as (ks & Hks & ->).
  pose proof (comprehension_forall2 _ _ _ Hks) as Hall.
  pose proof (comprehension_length _ _ _ Hks) as Hlen.
  assert (Hnth : forall p k, nth_error ks p = Some k ->
            exists tok, nth_error (split newline content) p = Some tok /\
                        int tok = Ok k).
  { clear Hks Hlen. induction Hall as [|tok k toks ks' Htok _ IH];
      intros [|p] k0 Hp; simpl in *; try discriminate.
    - injection Hp as <-. eauto.
    - eauto. }
  assert (Hnth' : forall p tok, nth_error (split newline content) p = Some tok ->
            exists k, nth_error ks p = Some k /\ int tok = Ok k).
  { clear Hks Hlen Hnth. induction Hall as [|tok k toks ks' Htok _ IH];
      intros [|p] tok0 Hp; simpl in *; try discriminate.
    - injection Hp as <-. eauto.
    - eauto. }
  split.
  - intros movie_id. split.
    + intros Hin. apply enumerated_keys_incl in Hin.
      apply In_nth_error in Hin as [p Hp].
      destruct (Hnth _ _ Hp) as (tok & Htok & Hint).
      eauto using nth_error_In.
    + intros (tok & Hin & Hint). apply In_nth_error in Hin as [p Hp].
      destruct (Hnth' _ _ Hp) as (k & Hk & Hint').
      assert (k = movie_id) by congruence. subst k.
      destruct (enumerated_get_some ks movie_id) as [v Hv];
        eauto using nth_error_In, get_in_keys.
  - intros movie_id i Hget.
    apply enumerated_get in Hget as (p & -> & Hp & Hlast).
    rewrite Nat2Z.id. split; [|split].
    + assert (p < length ks)%nat by (apply nth_error_Some; congruence). lia.
    + now apply Hnth.
    + intros j tok Hj Htok Hint.
      destruct (Hnth' _ _ Htok) as (k & Hk & Hint').
      apply (Hlast j Hj). congruence.
Qed.

End MappingMore.

(** * Further properties of the helpers *)

Section HelpersMore.

Import Visualize.

Context {Query Dist : Type}.

Implicit Types (movies : list movie) (out : list (DataFrame Dist)).
Implicit Types (index : Index Query Dist) (inv : dict Z).

Lemma knn_query_ok_inv inv index query ksearch pairs :
  knn_query inv index query ksearch = Ok pairs ->
  exists ds D' ls I' ids,
    search index (expand_dims0 query) ksearch = inr (ds :: D', ls :: I') /\
    comprehension (fun i => getitem inv i) ls = Ok ids /\
    pairs = zip ids ds.
Proof.
  unfold knn_query.
  destruct (search index (expand_dims0 query) ksearch) as [err|[D I]]; simpl;
    [discriminate|].
  destruct D as [|ds D']; simpl; [discriminate|].
  destruct I as [|ls I']; simpl; [discriminate|].
  destruct (comprehension (fun i => getitem inv i) ls) as [ids|e] eqn:Hids;
    simpl; [|discriminate].
  intros H. injection H as <-. exists ds, D', ls, I', ids. auto.
Qed.

Lemma map_fst_combine_firstn {A B : Type} (a : list A) (b : list B) :
  map fst (combine a b) = firstn (length b) a.
Proof.
  revert b. induction a as [|x a IH]; intros [|y b]; simpl; try reflexivity.
  now rewrite IH.
Qed.

Lemma map_snd_combine_firstn {A B : Type} (a : list A) (b : list B) :
  map snd (combine a b) = firstn (length a) b.
Proof.
  revert b. induction a as [|x a IH]; intros [|y b]; simpl; try reflexivity.
  now rewrite IH.
Qed.

Lemma Forall2_firstn {A B : Type} (P : A -> B -> Prop) n a b :
  Forall2 P a b -> Forall2 P (firstn n a) (firstn n b).
Proof.
  intros H. revert n. induction H as [|x y a b Hxy _ IH]; intros [|n]; simpl;
    constructor; auto.
Qed.

Lemma firstn_firstn_length {A B : Type} (a : list A) (b : list B) :
  length a = length b ->
  forall n, length (firstn n a) = length (firstn n b).
Proof. intros H n. now rewrite !length_firstn, H. Qed.

(** X7: when [knn_query] returns, the index returned at least one row of
    distances and one row of labels, every label of the first row, also one
    past the end of the distances, is a key of [inversed_map], and the pairs
    are the movie ids of the labels beside the distances, in the order the
    index gave them, as many as the shorter row has. *)
Theorem knn_query_returns inv index query ksearch pairs :
  knn_query inv index query ksearch = Ok pairs ->
  exists ds D' ls I',
    search index (expand_dims0 query) ksearch = inr (ds :: D', ls :: I') /\
    Forall (fun label => In label (keys inv)) ls /\
    length pairs = Nat.min (length ls) (length ds) /\
    map snd pairs = firstn (length ls) ds /\
    Forall2 (fun label movie_id => get label inv = Some movie_id)
            (firstn (length ds) ls) (map fst pairs).
Proof.
  intros H. apply knn_query_ok_inv in H as (ds & D' & ls & I' & ids & Hs & Hids & ->).
  pose proof (comprehension_length _ _ _ Hids) as Hlen.
  apply comprehension_forall2 in Hids.
  assert (Hget : Forall2 (fun label movie_id => get label inv = Some movie_id) ls ids).
  { eapply Forall2_impl; [|exact Hids]. intros i v. apply getitem_ok_iff. }
  exists ds, D', ls, I'. split; [exact Hs|]. split; [|split; [|split]].
  - clear -Hget. induction Hget; constructor; eauto using get_in_keys.
  - unfold zip. rewrite length_combine. lia.
  - unfold zip. now rewrite map_snd_combine_firstn, Hlen.
  - unfold zip. rewrite map_fst_combine_firstn. now apply Forall2_firstn.
Qed.

(** X8: with the dictionaries of a mapping file, every pair [knn_query] returns
    holds a movie id read from the file, and [mapp] sends that id back to
    the label the index gave at that rank. *)
Theorem knn_query_returns_mapped_ids content m index query ksearch pairs :
  mapp content = Ok m ->
  knn_query (inversed_map m) index query ksearch = Ok pairs ->
  Forall (fun pair => In (fst pair) (keys m)) pairs /\
  exists ds D' ls I',
    search index (expand_dims0 query) ksearch = inr (ds :: D', ls :: I') /\
    Forall2 (fun label pair => get (fst pair) m = Some label)
            (firstn (length ds) ls) pairs.
Proof.
  intros Hm H. apply mapp_ok_inv in Hm as (ks & _ & ->).
  apply knn_query_ok_inv in H as (ds & D' & ls & I' & ids & Hs & Hids & ->).
  apply comprehension_forall2 in Hids.
  assert (Hget : Forall2 (fun label movie_id =>
                            get movie_id (enumerated ks) = Some label) ls ids).
  { eapply Forall2_impl; [|exact Hids]. intros i v Hv.
    apply getitem_ok_iff in Hv.
    now apply (inversed_map_get _ _ _ (enumerated_keys_nodup ks)
                 (enumerated_injective ks)). }
  assert (Hpairs : Forall2 (fun label pair =>
                              get (fst pair) (enumerated ks) = Some label)
                           (firstn (length ds) ls) (zip ids ds)).
  { clear -Hget. unfold zip. revert ds.
    induction Hget as [|label id ls' ids' Hid _ IH]; intros [|d ds]; simpl;
      constructor; auto. }
  split.
  - clear -Hpairs. induction Hpairs; constructor; eauto using get_in_keys.
  - exists ds, D', ls, I'. auto.
Qed.

(** X9: [display_movie] succeeds exactly on a listed movie id, and then adds one
    frame with the genres and the title of the first row of the table that
    carries the id. *)
Theorem display_movie_shows_first_row movies movie_id out out' :
  display_movie movies movie_id out = Ok out' <->
  exists m, find (fun m => movieId m =? movie_id) movies = Some m /\
            out' = out ++ [movie_frame m].
Proof.
  unfold display_movie. split.
  - destruct (listed_dec movies movie_id) as [Hin|Hnot].
    + destruct (column_where_listed _ _ Hin) as (m & Hfind & Hcol).
      rewrite !Hcol. simpl. intros H. injection H as <-. now exists m.
    + rewrite !column_where_unlisted by assumption. discriminate.
  - intros (m & Hfind & ->).
    assert (Hin : listed movies movie_id).
    { apply find_some in Hfind as [Hin Heq]. apply Z.eqb_eq in Heq.
      unfold listed. rewrite <- Heq. now apply in_map. }
    destruct (column_where_listed _ _ Hin) as (m' & Hfind' & Hcol).
    assert (m' = m) by congruence. subst m'.
    now rewrite !Hcol.
Qed.

Lemma display_results_df_listed movies (results : list (Z * Dist)) out :
  Forall (fun r => listed movies (fst r)) results ->
  exists rows,
    display_results_df movies results out =
    Ok (out ++ [ {| columns := ["Genre"; "Title"; "Distance"]%string;
                    values := rows |} ]) /\
    length rows = length results.
Proof.
  intros Hall. unfold display_results_df.
  destruct (comprehension_total (results_row movies) results) as [rows Hrows].
  { eapply Forall_impl; [|exact Hall].
    intros r Hr. destruct (results_row_listed movies r Hr) as (m & _ & ->). eauto. }
  exists rows. rewrite Hrows. simpl. split; [reflexivity|].
  now apply comprehension_length in Hrows.
Qed.

(** X10: when every movie id [inversed_map] can give is listed in the movies
    table, [display_results_df] cannot fail on what [knn_query] returns: it
    displays one frame with a row for each pair. *)
Theorem display_results_of_knn_query movies inv index query ksearch pairs out :
  (forall label movie_id, get label inv = Some movie_id -> listed movies movie_id) ->
  knn_query inv index query ksearch = Ok pairs ->
  exists rows,
    display_results_df movies pairs out =
    Ok (out ++ [ {| columns := ["Genre"; "Title"; "Distance"]%string;
                    values := rows |} ]) /\
    length rows = length pairs.
Proof.
  intros Hlisted H.
  apply knn_query_ok_inv in H as (ds & D' & ls & I' & ids & _ & Hids & ->).
  apply display_results_df_listed.
  apply comprehension_forall2 in Hids. clear -Hids Hlisted.
  unfold zip. revert ds.
  induction Hids as [|label id ls' ids' Hid _ IH]; intros [|d ds]; simpl;
    constructor; auto.
  simpl. apply getitem_ok_iff in Hid. eauto.
Qed.

End HelpersMore.

(** * The query cell *)

Section QueryCell.

Import Visualize Query.

Context {Dist : Type}.

Implicit Types (movies : list movie) (mapp inv : dict Z).
Implicit Types (embeddings : list (list Dist)) (index : Index (list Dist) Dist).

Lemma item0_map_filter {A B : Type} (f : A -> B) (keep : A -> bool) (l : list A) :
  item0 (map f (filter keep l)) =
  match find keep l with
  | Some x => Ok (f x)
  | None => Raise IndexError
  end.
Proof.
  induction l as [|x rest IH]; simpl; [reflexivity|].
  destruct (keep x); [reflexivity | exact IH].
Qed.

Lemma ndarray_getitem_nonneg {A : Type} (a : list A) i :
  0 <= i ->
  ndarray_getitem a i =
  match nth_error a (Z.to_nat i) with
  | Some x => Ok x
  | None => Raise IndexError
  end.
Proof.
  intros Hi. unfold ndarray_getitem.
  destruct (Z.ltb_spec i 0) as [|_]; [lia|].
  destruct (Z.leb_spec 0 i) as [_|]; [|lia]. simpl.
  destruct (Z.ltb_spec i (Z.of_nat (length a))) as [|Hge]; [reflexivity|].
  destruct (nth_error a (Z.to_nat i)) eqn:E; [|reflexivity].
  assert (Z.to_nat i < length a)%nat by (apply nth_error_Some; congruence).
  lia.
Qed.

Lemma knn_query_ok {Query : Type} inv (idx : Index Query Dist) query ksearch
  ds D' ls I' :
  search idx (expand_dims0 query) ksearch = inr (ds :: D', ls :: I') ->
  Forall (fun label => In label (keys inv)) ls ->
  exists ids,
    Forall2 (fun label movie_id => get label inv = Some movie_id) ls ids /\
    knn_query inv idx query ksearch = Ok (zip ids ds).
Proof.
  intros Hs Hkeys. unfold knn_query. rewrite Hs. simpl.
  destruct (comprehension_total (fun i => getitem inv i) ls) as [ids Hids].
  { eapply Forall_impl; [|exact Hkeys]. intros label Hin.
    apply in_keys_get in Hin as [v Hv]. exists v. now apply getitem_ok_iff. }
  exists ids. rewrite Hids. simpl. split; [|reflexivity].
  apply comprehension_forall2 in Hids.
  eapply Forall2_impl; [|exact Hids]. intros i v. apply getitem_ok_iff.
Qed.

Lemma display_movie_of_row movies hit (out : list (DataFrame Dist)) :
  In hit movies ->
  exists shown,
    find (fun m => movieId m =? movieId hit) movies = Some shown /\
    display_movie movies (movieId hit) out = Ok (out ++ [movie_frame shown]).
Proof.
  intros Hin.
  assert (Hlisted : listed movies (movieId hit)) by now apply in_map.
  destruct (column_where_listed _ _ Hlisted) as (shown & Hfind & Hcol).
  exists shown. split; [assumption|]. unfold display_movie. now rewrite !Hcol.
Qed.

(** X11: the last cell ends with IndexError, having put out nothing, when no
    title contains star wars in any mix of capitals; otherwise showing the
    query cannot fail: the cell prints Query, displays the frame of the
    first row carrying the movie id of the first matching title, and prints
    Knn results before anything else can end it. *)
Theorem query_cell_begins movies mapp inv embeddings index :
  (find (fun m => contains "star wars" (lower (title m))) movies = None ->
   query_cell movies mapp inv embeddings index = ([], Raise IndexError)) /\
  (forall hit,
     find (fun m => contains "star wars" (lower (title m))) movies = Some hit ->
     exists shown rest r,
       find (fun m => movieId m =? movieId hit) movies = Some shown /\
       query_cell movies mapp inv embeddings index =
       ([Printed "Query"; Displayed (movie_frame shown); Printed "Knn results"]
          ++ rest, r)).
Proof.
  unfold query_cell, star_wars_id. rewrite item0_map_filter. split.
  - intros ->. reflexivity.
  - intros hit Hhit. rewrite Hhit.
    destruct (display_movie_of_row movies hit [] (proj1 (find_some _ _ Hhit)))
      as (shown & Hfind & ->).
    exists shown. simpl.
    destruct (neighbours mapp inv embeddings index (movieId hit)) as [results|e].
    + destruct (display_results_df movies results []) as [frames|e].
      * exists (map Displayed frames), (Ok tt). now split.
      * exists [], (Raise e). now split.
    + exists [], (Raise e). now split.
Qed.

(** X12: when the movie found is not a key of [mapp], the last cell ends with
    KeyError after it has printed Query, shown the movie and printed
    Knn results. *)
Theorem query_cell_unmapped_movie movies mapp inv embeddings index hit :
  find (fun m => contains "star wars" (lower (title m))) movies = Some hit ->
  get (movieId hit) mapp = None ->
  exists shown,
    find (fun m => movieId m =? movieId hit) movies = Some shown /\
    query_cell movies mapp inv embeddings index =
    ([Printed "Query"; Displayed (movie_frame shown); Printed "Knn results"],
     Raise KeyError).
Proof.
  intros Hhit Hnone. unfold query_cell, star_wars_id.
  rewrite item0_map_filter, Hhit.
  destruct (display_movie_of_row movies hit [] (proj1 (find_some _ _ Hhit)))
    as (shown & Hfind & ->).
  exists shown. split; [assumption|].
  unfold neighbours, getitem. now rewrite Hnone.
Qed.

(** X13: the last cell ends normally with four outputs, the last a frame of five
    rows, when a title matches, the movie found is a key of [mapp] with a
    row in the embeddings at its position, the index returns rows of five
    distances and five labels for that row, and every label leads through
    [inversed_map] to a listed movie. *)
Theorem query_cell_succeeds movies mapp inv embeddings index hit i query
  ds D' ls I' :
  find (fun m => contains "star wars" (lower (title m))) movies = Some hit ->
  get (movieId hit) mapp = Some i ->
  0 <= i ->
  nth_error embeddings (Z.to_nat i) = Some query ->
  search index (expand_dims0 query) 5 = inr (ds :: D', ls :: I') ->
  length ds = 5%nat ->
  length ls = 5%nat ->
  Forall (fun label => exists movie_id,
            get label inv = Some movie_id /\ listed movies movie_id) ls ->
  exists shown rows,
    find (fun m => movieId m =? movieId hit) movies = Some shown /\
    length rows = 5%nat /\
    query_cell movies mapp inv embeddings index =
    ([ Printed "Query"; Displayed (movie_frame shown); Printed "Knn results";
       Displayed {| columns := ["Genre"; "Title"; "Distance"]%string;
                    values := rows |} ],
     Ok tt).
Proof.
  intros Hhit Hget Hi Hrow Hs Hds Hls Hlabels.
  unfold query_cell, star_wars_id. rewrite item0_map_filter, Hhit.
  destruct (display_movie_of_row movies hit [] (proj1 (find_some _ _ Hhit)))
    as (shown & Hfind & ->).
  destruct (knn_query_ok inv index query 5 ds D' ls I' Hs) as (ids & Hids & Hknn).
  { eapply Forall_impl; [|exact Hlabels].
    intros label (movie_id & Hid & _). eauto using get_in_keys. }
  assert (Hpairs : Forall (fun r => listed movies (fst r)) (zip ids ds)).
  { clear -Hids Hlabels. unfold zip. revert ds.
    induction Hids as [|label id ls' ids' Hid _ IH]; intros [|d ds]; simpl;
      constructor.
    - simpl. inversion Hlabels as [|? ? (id' & Hid' & Hlisted) _]; subst.
      congruence.
    - apply IH. now inversion Hlabels. }
  destruct (display_results_df_listed movies (zip ids ds) [] Hpairs)
    as (rows & Hshow & Hrows).
  exists shown, rows. split; [assumption|]. split.
  - rewrite Hrows. unfold zip. rewrite length_combine.
    apply Forall2_length in Hids. lia.
  - unfold neighbours, getitem. rewrite Hget. simpl.
    rewrite (ndarray_getitem_nonneg _ _ Hi), Hrow. simpl.
    rewrite Hknn, Hshow. reflexivity.
Qed.

(** X14: [mapp] never gives a negative position, so [embeddings[mapp[p]]] is the
    row at that position counted from the start, present whenever the
    embeddings have at least as many rows as the mapping file has lines, and
    an IndexError when the position lies past the last row. *)
Theorem embedding_of_mapped_movie content m embeddings p i :
  Visualize.mapp content = Ok m ->
  get p m = Some i ->
  0 <= i /\
  ndarray_getitem embeddings i =
    match nth_error embeddings (Z.to_nat i) with
    | Some row => Ok row
    | None => Raise IndexError
    end /\
  ((length (split newline content) <= length embeddings)%nat ->
   exists row, ndarray_getitem embeddings i = Ok row) /\
  ((length embeddings <= Z.to_nat i)%nat ->
   ndarray_getitem embeddings i = Raise IndexError).
Proof.
  intros Hm Hget. apply mapp_ok_inv in Hm as (ks & Hks & ->).
  apply enumerated_get in Hget as (pos & -> & Hpos & _).
  assert (Hlt : (pos < length ks)%nat) by (apply nth_error_Some; congruence).
  rewrite (comprehension_length _ _ _ Hks) in Hlt.
  split; [lia|]. rewrite ndarray_getitem_nonneg by lia. rewrite Nat2Z.id.
  split; [reflexivity|]. split.
  - intros Hrows.
    destruct (nth_error embeddings pos) as [row|] eqn:E; [eauto|].
    apply nth_error_None in E. lia.
  - intros Hshort. apply nth_error_None in Hshort. now rewrite Hshort.
Qed.

End QueryCell.

Section Files.

Import Notebook Query.

Context `{F : Framework}.

Local Open Scope string_scope.

(** X15: the files the visualisation cell opens by their spelled-out paths are
    the ones the pipeline wrote: the embeddings where every Evaluate job
    reads them, below the directory of the SaveVariables exporter, the
    mapping file where BuildRecords wrote it, and the movies table in the
    directory of the ratings. *)
Theorem visualisation_reads_pipeline_files :
  (forall job, In job evaluate ->
     kwarg "path_embeddings" job = Some (VStr embeddings_file)) /\
  embeddings_file = path_variables ++ "/embeddings" /\
  kwarg "path_mapping" build = Some (VStr mapping_file) /\
  mapping_file = path_mapping /\
  movies_file = dataset_path ++ "/movies.csv" /\
  path_ratings = dataset_path ++ "/ratings.csv".
Proof.
  split.
  - intros job [<-|[<-|[<-|[]]]]; reflexivity.
  - repeat split.
Qed.

End Files.

(** * More concrete runs *)

Section MoreRuns.

Import Visualize Notebook Query Demo Demo2.

Local Open Scope string_scope.
Local Open Scope list_scope.

Example lower_title :
  lower "Star Wars: Episode IV - A New Hope (1977)" =
  "star wars: episode iv - a new hope (1977)".
Proof. reflexivity. Qed.

Example star_wars_id_movies3 : star_wars_id movies3 = Ok 260.
Proof. reflexivity. Qed.

Example star_wars_id_movies_plain : star_wars_id movies_plain = Raise IndexError.
Proof. reflexivity. Qed.

Example ndarray_getitem_last : ndarray_getitem embeddings3 (-1) = Ok [1; 2].
Proof. reflexivity. Qed.

Example ndarray_getitem_past_end : ndarray_getitem embeddings3 3 = Raise IndexError.
Proof. reflexivity. Qed.

Lemma split_join_witness :
  split newline (join newline ["260"; "1196"; "1210"]) = ["260"; "1196"; "1210"].
Proof.
  apply (split_join newline ["260"; "1196"; "1210"]).
  - discriminate.
  - repeat constructor.
Defined.

Lemma int_ignores_surrounding_space_witness :
  int (String " " "260") = int "260" /\ int ("260" ++ String " " "") = int "260".
Proof.
  apply (int_ignores_surrounding_space " " "260"). reflexivity.
Defined.

Lemma inversed_map_turns_mapp_around_witness :
  inversed_map [(260, 2); (1196, 1)] = map swap [(260, 2); (1196, 1)] /\
  length (inversed_map [(260, 2); (1196, 1)]) = length [(260, 2); (1196, 1)] /\
  (forall movie_id i,
     get movie_id [(260, 2); (1196, 1)] = Some i <->
     get i (inversed_map [(260, 2); (1196, 1)]) = Some movie_id).
Proof.
  apply (inversed_map_turns_mapp_around mapping_repeated [(260, 2); (1196, 1)]).
  reflexivity.
Defined.

Lemma mapp_positions_witness :
  (forall movie_id,
     In movie_id (keys [(260, 2); (1196, 1)]) <->
     exists tok, In tok (split newline mapping_repeated) /\ int tok = Ok movie_id) /\
  (forall movie_id i,
     get movie_id [(260, 2); (1196, 1)] = Some i ->
     0 <= i < Z.of_nat (length (split newline mapping_repeated)) /\
     (exists tok, nth_error (split newline mapping_repeated) (Z.to_nat i) = Some tok /\
                  int tok = Ok movie_id) /\
     (forall j tok, (Z.to_nat i < j)%nat ->
                    nth_error (split newline mapping_repeated) j = Some tok ->
                    int tok <> Ok movie_id)).
Proof.
  apply (mapp_positions mapping_repeated [(260, 2); (1196, 1)]). reflexivity.
Defined.

Lemma knn_query_returns_witness :
  exists ds D' ls I',
    search small_index (expand_dims0 [1; 0]) 2 = inr (ds :: D', ls :: I') /\
    Forall (fun label => In label (keys [(0, 260); (1, 1196); (2, 1210)])) ls /\
    length [(1210, 30); (260, 20)] = Nat.min (length ls) (length ds) /\
    map snd [(1210, 30); (260, 20)] = firstn (length ls) ds /\
    Forall2 (fun label movie_id =>
               get label [(0, 260); (1, 1196); (2, 1210)] = Some movie_id)
            (firstn (length ds) ls) (map fst [(1210, 30); (260, 20)]).
Proof.
  apply (knn_query_returns [(0, 260); (1, 1196); (2, 1210)] small_index [1; 0] 2
           [(1210, 30); (260, 20)]).
  reflexivity.
Defined.

Lemma knn_query_returns_mapped_ids_witness :
  Forall (fun pair => In (fst pair) (keys [(260, 0); (1196, 1); (1210, 2)]))
         [(1210, 30); (260, 20)] /\
  exists ds D' ls I',
    search small_index (expand_dims0 [1; 0]) 2 = inr (ds :: D', ls :: I') /\
    Forall2 (fun label pair =>
               get (fst pair) [(260, 0); (1196, 1); (1210, 2)] = Some label)
            (firstn (length ds) ls) [(1210, 30); (260, 20)].
Proof.
  apply (knn_query_returns_mapped_ids mapping3 [(260, 0); (1196, 1); (1210, 2)]
           small_index [1; 0] 2 [(1210, 30); (260, 20)]); reflexivity.
Defined.

Lemma display_results_of_knn_query_witness :
  exists rows,
    display_results_df movies3 [(1210, 30); (260, 20)] [] =
    Ok ([] ++ [ {| columns := ["Genre"; "Title"; "Distance"]; values := rows |} ]) /\
    length rows = length [(1210, 30); (260, 20)].
Proof.
  apply (display_results_of_knn_query movies3 [(0, 260); (1, 1196); (2, 1210)]
           small_index [1; 0] 2 [(1210, 30); (260, 20)] []).
  - intros label movie_id. unfold listed. simpl.
    destruct (label =? 0)%Z; [intros H; injection H as <-; auto|].
    destruct (label =? 1)%Z; [intros H; injection H as <-; auto|].
    destruct (label =? 2)%Z; [intros H; injection H as <-; auto | discriminate].
  - reflexivity.
Defined.

Lemma query_cell_unmapped_movie_witness :
  exists shown,
    find (fun m => (movieId m =? 260)%Z) movies3 = Some shown /\
    query_cell (Dist := Z) movies3 [(1, 0)] [(0, 1)] embeddings3 index5 =
    ([Printed "Query"; Displayed (movie_frame shown); Printed "Knn results"],
     Raise KeyError).
Proof.
  apply (query_cell_unmapped_movie movies3 [(1, 0)] [(0, 1)] embeddings3 index5
           {| movieId := 260;
              title := "Star Wars: Episode IV - A New Hope (1977)";
              genres := "Action|Adventure|Sci-Fi" |}); reflexivity.
Defined.

Lemma query_cell_succeeds_witness :
  exists shown rows,
    find (fun m => (movieId m =? 260)%Z) movies3 = Some shown /\
    length rows = 5%nat /\
    query_cell movies3 [(260, 0); (1196, 1); (1210, 2)]
      [(0, 260); (1, 1196); (2, 1210)] embeddings3 index5 =
    ([ Printed "Query"; Displayed (movie_frame shown); Printed "Knn results";
       Displayed {| columns := ["Genre"; "Title"; "Distance"]; values := rows |} ],
     Ok tt).
Proof.
  apply (query_cell_succeeds movies3 [(260, 0); (1196, 1); (1210, 2)]
           [(0, 260); (1, 1196); (2, 1210)] embeddings3 index5
           {| movieId := 260;
              title := "Star Wars: Episode IV - A New Hope (1977)";
              genres := "Action|Adventure|Sci-Fi" |}
           0 [3; 0] [50; 40; 30; 20; 10] [] [0; 1; 2; 0; 1] []);
    try reflexivity.
  repeat (constructor;
          [eexists; split; [reflexivity | unfold listed; simpl; auto 6]|]).
  constructor.
Defined.

Lemma embedding_of_mapped_movie_witness :
  0 <= 1 /\
  ndarray_getitem embeddings3 1 =
    match nth_error embeddings3 (Z.to_nat 1) with
    | Some row => Ok row
    | None => Raise IndexError
    end /\
  ((length (split newline mapping3) <= length embeddings3)%nat ->
   exists row, ndarray_getitem embeddings3 1 = Ok row) /\
  ((length embeddings3 <= Z.to_nat 1)%nat ->
   ndarray_getitem embeddings3 1 = Raise IndexError).
Proof.
  apply (embedding_of_mapped_movie mapping3 [(260, 0); (1196, 1); (1210, 2)]
           embeddings3 1196 1); reflexivity.
Defined.

End MoreRuns.

(** * Runs of the stages and of the mapping line *)

Section StageRuns.

Import Notebook Stages MappingFile Demo.

Local Open Scope string_scope.
Local Open Scope list_scope.

Example mapp_of_file_missing :
  mapp_of_file no_file = inl (Reading (OSError "FileNotFoundError")).
Proof. reflexivity. Qed.

Example mapp_of_file_mapping3 :
  mapp_of_file (only_mapping mapping3) = inr [(260, 0); (1196, 1); (1210, 2)].
Proof. reflexivity. Qed.

Example mapp_of_file_trailing :
  mapp_of_file (only_mapping mapping_trailing) = inl (Building ValueError).
Proof. reflexivity. Qed.

(** When the training job fails, the prediction and evaluation jobs are
    never started. *)
Example training_fails_run :
  notebook (F := training_fails) ([], []) =
  (Raise (External "ResourceExhaustedError"),
   ([path_data; path_model; path_root],
    [ Mkdir path_root; Mkdir path_model; Mkdir path_data;
      Started (build (F := training_fails));
      Finished (build (F := training_fails));
      VocabSize path_mapping; VocabSize path_mapping;
      Started (Trainer 3 3) ])).
Proof. reflexivity. Qed.

Lemma notebook_stages_in_order_witness :
  notebook (F := files) ([], []) =
  (Ok tt, (world_after_stages (F := files) 3 [], complete_run (F := files) 3 3)).
Proof.
  apply (proj1 (proj2 (notebook_stages_in_order (F := files) [])) 3).
  repeat split; reflexivity.
Defined.

Lemma evaluate_three_jobs_witness :
  fst (notebook (F := files) ([], [])) = Ok tt /\
  filter is_started_Evaluate (snd (snd (notebook (F := files) ([], [])))) =
    [Started (Evaluate 10); Started (Evaluate 20); Started (Evaluate 50)] /\
  printed_metrics (snd (snd (notebook (F := files) ([], [])))) =
    [ ("precision", 10); ("recall", 10); ("f1", 10); ("NDCG", 10);
      ("precision", 20); ("recall", 20); ("f1", 20); ("NDCG", 20);
      ("precision", 50); ("recall", 50); ("f1", 50); ("NDCG", 50) ].
Proof.
  destruct (evaluate_three_jobs (F := files))
    as (_ & _ & _ & _ & _ & _ & Hrun & _).
  apply (Hrun [] 3).
  repeat split; reflexivity.
Defined.

End StageRuns.
